(** * PZEM-017 Modbus logger: a shallow embedding of [csv_log.py]

    The development follows the Python module function by function:
    [init], [read_pzem_data], [log_file], [write_results] and [main].
    Python's effects (the file system, the serial transport, standard
    output, generator objects, exceptions) are threaded explicitly through
    a state-and-exception monad over a [world] record. *)

From Stdlib Require Import ZArith Floats Ascii String.
From stdpp Require Import base option list strings pretty gmap.

#[local] Set Warnings "-inexact-float,-register-all".

Local Open Scope string_scope.
Local Open Scope Z_scope.
Local Open Scope list_scope.

(** ** Python strings

    Strings are byte strings; [str.lower] only moves the ASCII capitals,
    which is all the extension test of [log_file] can observe. *)

Module PyStr.

Definition lower_char (c : ascii) : ascii :=
  let n := nat_of_ascii c in
  if (65 <=? n)%nat && (n <=? 90)%nat then ascii_of_nat (n + 32) else c.

Fixpoint lower (s : string) : string :=
  match s with
  | EmptyString => EmptyString
  | String c r => String (lower_char c) (lower r)
  end.

Definition startswith (c : ascii) (s : string) : bool :=
  match s with
  | String d _ => bool_decide (d = c)
  | EmptyString => false
  end.

Fixpoint endswith (c : ascii) (s : string) : bool :=
  match s with
  | EmptyString => false
  | String d EmptyString => bool_decide (d = c)
  | String _ r => endswith c r
  end.

(** [s.rfind(c)]: index of the last occurrence of [c], or [-1]. *)
Fixpoint rfind (c : ascii) (s : string) : Z :=
  match s with
  | EmptyString => -1
  | String d r =>
      let i := rfind c r in
      if 0 <=? i then i + 1
      else if bool_decide (d = c) then 0 else -1
  end.

(** [s[:i]] and [s[i:]] for [0 <= i]. *)
Fixpoint take (i : nat) (s : string) : string :=
  match i, s with
  | S k, String c r => String c (take k r)
  | _, _ => EmptyString
  end.

Fixpoint drop (i : nat) (s : string) : string :=
  match i, s with
  | S k, String _ r => drop k r
  | _, _ => s
  end.

(** [s[i:i+1]]: the one-character slice, empty out of range. *)
Definition slice1 (i : nat) (s : string) : string := take 1 (drop i s).

Fixpoint contains (c : ascii) (s : string) : bool :=
  match s with
  | EmptyString => false
  | String d r => bool_decide (d = c) || contains c r
  end.

(** [s.split(c)], total: the empty string splits into one empty piece. *)
Fixpoint split (c : ascii) (s : string) : list string :=
  match s with
  | EmptyString => [EmptyString]
  | String d r =>
      if bool_decide (d = c) then EmptyString :: split c r
      else match split c r with
           | h :: t => String d h :: t
           | [] => [String d EmptyString]
           end
  end.

Fixpoint join (sep : string) (l : list string) : string :=
  match l with
  | [] => EmptyString
  | [x] => x
  | x :: r => x +:+ sep +:+ join sep r
  end.

End PyStr.

(** ** Python numbers

    [int] is [Z]; [float] is IEEE-754 binary64, Rocq's primitive [float].
    [float(n)] rounds the integer to the nearest double (exactly, for
    anything two 16-bit register words can make; Python's [OverflowError]
    for integers beyond the double range is out of their reach). *)

Definition float_of_int (z : Z) : float :=
  SF2Prim (binary_normalize prec emax z 0 false).

(** ** Exceptions *)

(** The error numbers the file-system calls of this program can meet. *)
Inductive errno : Type :=
  ENOENT | EBADF | EACCES | EEXIST | ENOTDIR | EISDIR.

Definition errno_number (c : errno) : Z :=
  match c with
  | ENOENT => 2 | EBADF => 9 | EACCES => 13
  | EEXIST => 17 | ENOTDIR => 20 | EISDIR => 21
  end.

Definition strerror (c : errno) : string :=
  match c with
  | ENOENT => "No such file or directory"
  | EBADF => "Bad file descriptor"
  | EACCES => "Permission denied"
  | EEXIST => "File exists"
  | ENOTDIR => "Not a directory"
  | EISDIR => "Is a directory"
  end.

Inductive exn : Type :=
  | IllegalRequestError (msg : string)
      (* minimalmodbus.IllegalRequestError *)
  | TransportError (name : string)
      (* any other exception class a register read raises:
         NoResponseError, InvalidResponseError, SerialException, ... *)
  | KeyboardInterrupt
  | UnboundLocalError (var : string) (context : option exn)
  | ValueError (msg : string)
  | OSError (code : errno) (filename : string).

Definition is_IllegalRequestError (e : exn) : bool :=
  match e with IllegalRequestError _ => true | _ => false end.

Definition is_KeyboardInterrupt (e : exn) : bool :=
  match e with KeyboardInterrupt => true | _ => false end.

Definition is_OSError (e : exn) : bool :=
  match e with OSError _ _ => true | _ => false end.

(** [str(e)], as interpolated into the diagnostics. *)
Definition str_exn (e : exn) : string :=
  match e with
  | IllegalRequestError msg => msg
  | TransportError name => name
  | KeyboardInterrupt => ""
  | UnboundLocalError var _ =>
      "cannot access local variable '" +:+ var
        +:+ "' where it is not associated with a value"
  | ValueError msg => msg
  | OSError code filename =>
      "[Errno " +:+ pretty (errno_number code) +:+ "] " +:+ strerror code
        +:+ ": '" +:+ filename +:+ "'"
  end.

(** ** The world

    Everything the program can observe or change outside its own locals. *)

(** A CSV cell as handed to [csv.writer.writerow]. *)
Inductive cell : Type :=
  | CStr (s : string)
  | CFloat (f : float)
  | CInt (n : Z).

Definition row := list cell.

(** File-system nodes, keyed by their canonical component path from the
    working directory (the root of the model).  A regular file holds the
    rows appended to it through [csv.writer]; a directory records whether
    entries may be created in it. *)
Inductive node : Type :=
  | Dir (writable : bool)
  | File (rows : list row).

Definition path := list string.

(** State of a generator object made by [read_pzem_data]. *)
Inductive gen_state : Type :=
  | GenCreated            (* body not started *)
  | GenSuspended          (* paused at [yield row_data] *)
  | GenFinished.          (* returned or raised *)

Record world : Type := mkWorld {
  fs : gmap path node;
  stdout : list string;
  (* the transport: outcome of the k-th register read of the run,
     at the address asked for *)
  device : nat → Z → exn + Z;
  reads_done : nat;
  serial_open : bool;
  (* wall clock: what [time.strftime] returns at the k-th call *)
  clock : nat → string;
  clock_reads : nat;
  (* operator interrupts: whether Ctrl-C is pending at the k-th
     interruptible point outside the register reads *)
  sigint : nat → bool;
  ticks : nat;
  (* heap of generator objects, addressed by index *)
  generators : list gen_state;
  (* the serial adapter: what opening the port raises, if it cannot be
     opened *)
  port_error : option exn;
}.

Definition set_fs (f : gmap path node) (w : world) : world :=
  mkWorld f (stdout w) (device w) (reads_done w) (serial_open w)
          (clock w) (clock_reads w) (sigint w) (ticks w) (generators w)
          (port_error w).

Definition set_stdout (o : list string) (w : world) : world :=
  mkWorld (fs w) o (device w) (reads_done w) (serial_open w)
          (clock w) (clock_reads w) (sigint w) (ticks w) (generators w)
          (port_error w).

Definition set_reads_done (n : nat) (w : world) : world :=
  mkWorld (fs w) (stdout w) (device w) n (serial_open w)
          (clock w) (clock_reads w) (sigint w) (ticks w) (generators w)
          (port_error w).

Definition set_serial_open (b : bool) (w : world) : world :=
  mkWorld (fs w) (stdout w) (device w) (reads_done w) b
          (clock w) (clock_reads w) (sigint w) (ticks w) (generators w)
          (port_error w).

Definition set_clock_reads (n : nat) (w : world) : world :=
  mkWorld (fs w) (stdout w) (device w) (reads_done w) (serial_open w)
          (clock w) n (sigint w) (ticks w) (generators w)
          (port_error w).

Definition set_ticks (n : nat) (w : world) : world :=
  mkWorld (fs w) (stdout w) (device w) (reads_done w) (serial_open w)
          (clock w) (clock_reads w) (sigint w) n (generators w)
          (port_error w).

Definition set_generators (g : list gen_state) (w : world) : world :=
  mkWorld (fs w) (stdout w) (device w) (reads_done w) (serial_open w)
          (clock w) (clock_reads w) (sigint w) (ticks w) g (port_error w).

(** ** The effect monad: state, exceptions, and fuel for [while] loops *)

Inductive result (A : Type) : Type :=
  | Ok (a : A)
  | Raise (e : exn)
  | OutOfFuel.

Arguments Ok {A} a.
Arguments Raise {A} e.
Arguments OutOfFuel {A}.

Definition M (A : Type) : Type := world → result A * world.

Definition ret {A} (a : A) : M A := λ w, (Ok a, w).

Definition raise {A} (e : exn) : M A := λ w, (Raise e, w).

Definition bind {A B} (m : M A) (k : A → M B) : M B := λ w,
  match m w with
  | (Ok a, w') => k a w'
  | (Raise e, w') => (Raise e, w')
  | (OutOfFuel, w') => (OutOfFuel, w')
  end.

(** [try: m except <handler>]: the handler decides which classes it
    catches by re-raising the others. *)
Definition try_except {A} (m : M A) (handler : exn → M A) : M A := λ w,
  match m w with
  | (Raise e, w') => handler e w'
  | r => r
  end.

Declare Scope py_scope.
Delimit Scope py_scope with py.
Notation "'let*' x ':=' m 'in' k" := (bind m (λ x, k))
  (at level 10, x pattern, m at level 100, k at level 200) : py_scope.
Notation "m ;; k" := (bind m (λ _, k))
  (at level 100, k at level 200, right associativity) : py_scope.
Local Open Scope py_scope.

Definition get_world : M world := λ w, (Ok w, w).
Definition modify (f : world → world) : M unit := λ w, (Ok tt, f w).

(** [print(s)] *)
Definition print (s : string) : M unit :=
  modify (λ w, set_stdout (stdout w ++ [s]) w).

(** ** The operating system interface ([os], [os.path], [open])

    Path names are resolved the POSIX way, component by component from the
    working directory, every traversed component having to be a directory.
    The working directory is the root of the model, as for a process
    started in [/]: it is the empty path, and it is always a directory.
    Whether entries may be created in it is part of the file system: an
    entry [Dir false] under the empty path makes it read-only, and
    without such an entry it is writable. Symbolic links and the
    permissions of regular files are not modelled. *)

Module Os.

Definition components (name : string) : list string :=
  filter (λ c, c ≠ "") (PyStr.split "/" name).

Definition cwd_writable (f : gmap path node) : bool :=
  match f !! [] with
  | Some (Dir false) => false
  | _ => true
  end.

Definition lookup_node (f : gmap path node) (p : path) : option node :=
  match p with
  | [] => Some (Dir (cwd_writable f))
  | _ => f !! p
  end.

Definition is_dir (f : gmap path node) (p : path) : bool :=
  match lookup_node f p with
  | Some (Dir _) => true
  | _ => false
  end.

Definition is_writable_dir (f : gmap path node) (p : path) : bool :=
  match lookup_node f p with
  | Some (Dir wr) => wr
  | _ => false
  end.

(** Where a component list leads from directory [cur]; [None] when a
    component that has to be traversed is not a directory. *)
Fixpoint walk (f : gmap path node) (cur : path) (comps : list string)
  : option path :=
  match comps with
  | [] => Some cur
  | c :: rest =>
      if is_dir f cur then
        if bool_decide (c = ".") then walk f cur rest
        else if bool_decide (c = "..") then walk f (removelast cur) rest
        else walk f (cur ++ [c]) rest
      else None
  end.

Definition locate (f : gmap path node) (name : string) : option path :=
  if bool_decide (name = "") then None else walk f [] (components name).

(** Why a walk fails: a regular file in the way, or nothing there. *)
Fixpoint walk_errno (f : gmap path node) (cur : path) (comps : list string)
  : errno :=
  match comps with
  | [] => ENOENT
  | c :: rest =>
      match lookup_node f cur with
      | Some (Dir _) =>
          if bool_decide (c = ".") then walk_errno f cur rest
          else if bool_decide (c = "..") then walk_errno f (removelast cur) rest
          else walk_errno f (cur ++ [c]) rest
      | Some (File _) => ENOTDIR
      | None => ENOENT
      end
  end.

(** [os.path.exists(name)] *)
Definition path_exists (f : gmap path node) (name : string) : bool :=
  match locate f name with
  | Some p => bool_decide (is_Some (lookup_node f p))
  | None => false
  end.

(** [os.path.join(a, b)] (posixpath) *)
Definition path_join (a b : string) : string :=
  if PyStr.startswith "/" b then b
  else if bool_decide (a = "") || PyStr.endswith "/" a then a +:+ b
  else a +:+ "/" +:+ b.

(** The leading-dot scan of [genericpath._splitext]: [count] characters
    remain between [filenameIndex] and [dotIndex]. *)
Fixpoint splitext_scan (p : string) (dotIndex : nat)
    (filenameIndex count : nat) : string * string :=
  match count with
  | O => (p, EmptyString)
  | S k =>
      if bool_decide (PyStr.slice1 filenameIndex p ≠ ".")
      then (PyStr.take dotIndex p, PyStr.drop dotIndex p)
      else splitext_scan p dotIndex (S filenameIndex) k
  end.

(** [os.path.splitext(p)] *)
Definition path_splitext (p : string) : string * string :=
  let sepIndex := PyStr.rfind "/" p in
  let dotIndex := PyStr.rfind "." p in
  if sepIndex <? dotIndex then
    let filenameIndex := sepIndex + 1 in
    splitext_scan p (Z.to_nat dotIndex) (Z.to_nat filenameIndex)
                  (Z.to_nat (dotIndex - filenameIndex))
  else (p, EmptyString).

(** The directory-creating walk of [os.makedirs(name, exist_ok=True)]:
    existing directories are entered, missing ones are made, and the
    first obstacle stops the walk, leaving what was made so far. *)
Fixpoint makedirs_walk (f : gmap path node) (cur : path)
    (comps : list string) : option errno * gmap path node :=
  match comps with
  | [] => (None, f)
  | c :: rest =>
      if bool_decide (c = ".") then makedirs_walk f cur rest
      else if bool_decide (c = "..") then makedirs_walk f (removelast cur) rest
      else
        let p := cur ++ [c] in
        match lookup_node f p with
        | Some (Dir _) => makedirs_walk f p rest
        | Some (File _) =>
            (Some (if rest is [] then EEXIST else ENOTDIR), f)
        | None =>
            if is_writable_dir f cur
            then makedirs_walk (<[p := Dir true]> f) p rest
            else (Some EACCES, f)
        end
  end.

(** [os.makedirs(name, exist_ok=True)] *)
Definition makedirs (name : string) : M unit := λ w,
  if bool_decide (name = "") then (Raise (OSError ENOENT name), w)
  else
    match makedirs_walk (fs w) [] (components name) with
    | (None, f') => (Ok tt, set_fs f' w)
    | (Some code, f') => (Raise (OSError code name), set_fs f' w)
    end.

(** [open(name, 'a', newline='')]: the file object is the canonical path
    of the (possibly just created) regular file. *)
Definition open_append (name : string) : M path := λ w,
  match locate (fs w) name with
  | None =>
      (Raise (OSError (walk_errno (fs w) [] (components name)) name), w)
  | Some p =>
      match lookup_node (fs w) p with
      | Some (Dir _) => (Raise (OSError EISDIR name), w)
      | Some (File _) => (Ok p, w)
      | None =>
          if is_writable_dir (fs w) (removelast p)
          then (Ok p, set_fs (<[p := File []]> (fs w)) w)
          else (Raise (OSError EACCES name), w)
      end
  end.

(** [csv.writer(f).writerow(r)] on an open file. *)
Definition writerow (f : path) (r : row) : M unit := λ w,
  match fs w !! f with
  | Some (File rows) => (Ok tt, set_fs (<[f := File (rows ++ [r])]> (fs w)) w)
  | _ => (Raise (OSError EBADF ""), w)
  end.

End Os.

(** ** CSV text

    How [csv.writer] (excel dialect, [QUOTE_MINIMAL]) renders a record of
    text fields: a field is quoted when it contains the delimiter, the
    quote character or a line-terminator character, quotes are doubled
    inside, and the record ends in CR LF. *)

Module Csv.

Definition quotechar : ascii := ascii_of_nat 34.
Definition cr : ascii := ascii_of_nat 13.
Definition lf : ascii := ascii_of_nat 10.

Definition needs_quotes (s : string) : bool :=
  PyStr.contains "," s || PyStr.contains quotechar s
  || PyStr.contains cr s || PyStr.contains lf s.

Fixpoint double_quotes (s : string) : string :=
  match s with
  | EmptyString => EmptyString
  | String c r =>
      if bool_decide (c = quotechar)
      then String c (String c (double_quotes r))
      else String c (double_quotes r)
  end.

Definition field (s : string) : string :=
  if needs_quotes s
  then String quotechar (double_quotes s) +:+ String quotechar EmptyString
  else s.

Definition lineterminator : string := String cr (String lf EmptyString).

Definition line (fields : list string) : string :=
  PyStr.join "," (field <$> fields) +:+ lineterminator.

(** The text of a cell: strings as they are, integers in decimal.  The
    [repr] of a double is not modelled. *)
Definition cell_text (c : cell) : option string :=
  match c with
  | CStr s => Some s
  | CInt n => Some (pretty n)
  | CFloat _ => None
  end.

(** The bytes [writerow] puts in the file for a record without doubles. *)
Definition row_text (r : row) : option string :=
  line <$> mapM cell_text r.

End Csv.

(** ** The program *)

Definition out_of_fuel {A} : M A := λ w, (OutOfFuel, w).

(** *** The transport and the clock *)

Record instrument : Type := mkInstrument {
  port : string;
  slaveaddress : Z;
  baudrate : Z;
  bytesize : Z;
  parity : string;
  stopbits : Z;
  timeout : Z;
}.

(** One Modbus register read (function code 4): the next outcome of the
    device script, an unsigned register word or an exception. *)
Definition read_raw (address : Z) : M Z := λ w,
  let w' := set_reads_done (S (reads_done w)) w in
  match device w (reads_done w) address with
  | inl e => (Raise e, w')
  | inr v => (Ok v, w')
  end.

(** [instrument.read_register(address, functioncode=4)] *)
Definition read_register (i : instrument) (address : Z) : M Z :=
  read_raw address.

(** [instrument.read_register(address, number_of_decimals=d, functioncode=4)]
    with [d > 0]: the register divided by [float(10 ** d)]. *)
Definition read_register_decimals (i : instrument) (address : Z)
    (number_of_decimals : nat) : M float :=
  let* v := read_raw address in
  ret (PrimFloat.div (float_of_int v)
                     (float_of_int (10 ^ Z.of_nat number_of_decimals))).

(** [instrument.serial.close()] *)
Definition serial_close (i : instrument) : M unit :=
  modify (set_serial_open false).

(** [time.strftime('%Y-%m-%d %H:%M:%S')] *)
Definition strftime : M string := λ w,
  (Ok (clock w (clock_reads w)), set_clock_reads (S (clock_reads w)) w).

(** A point at which a pending Ctrl-C is delivered as [KeyboardInterrupt]. *)
Definition checkpoint : M unit := λ w,
  let w' := set_ticks (S (ticks w)) w in
  if sigint w (ticks w) then (Raise KeyboardInterrupt, w') else (Ok tt, w').

(** *** [init] *)

(** [minimalmodbus.Instrument(port, slaveaddress)] opens the serial port
    in its constructor, and raises what opening it raises when the
    adapter is not there or cannot be used. *)
Definition open_port : M unit := λ w,
  match port_error w with
  | Some e => (Raise e, w)
  | None => (Ok tt, set_serial_open true w)
  end.

Definition init : M instrument :=
  open_port ;;
  ret {| port := "/dev/ttyUSB0"; slaveaddress := 1; baudrate := 9600;
         bytesize := 8; parity := "N"; stopbits := 2; timeout := 1 |}.

(** *** [read_pzem_data]

    The [try] block: on normal completion the local [row_data] is bound to
    the value returned here; on any exception it is still unbound, the
    assignment being the block's last statement. *)
Definition read_pzem_data_try (i : instrument) : M row :=
  (* Read measurement data: *)
  let* voltage := read_register_decimals i 0 2 in
  let* current := read_register_decimals i 1 2 in
  let* power_low := read_register i 2 in
  let* power_high := read_register i 3 in
  let power := float_of_int (Z.shiftl power_high 16 + power_low) in
  let* energy_low := read_register i 4 in
  let* energy_high := read_register i 5 in
  let energy := float_of_int (Z.shiftl energy_high 16 + energy_low) in
  (* Read alarm status *)
  let* high_voltage_alarm := read_register i 6 in
  let* low_voltage_alarm := read_register i 7 in
  (* Stack data and timestamp together: *)
  let row_values :=
    [CFloat voltage; CFloat current; CFloat (PrimFloat.mul power 0.1%float);
     CFloat energy; CInt high_voltage_alarm; CInt low_voltage_alarm] in
  let* row_time := strftime in
  let row_data := CStr row_time :: row_values in
  ret row_data.

(** The [except minimalmodbus.IllegalRequestError as e] clause. *)
Definition read_pzem_data_except (e : exn) : M (option row) :=
  if is_IllegalRequestError e
  then print ("Error: " +:+ str_exn e) ;; ret None
  else raise e.

(** The [finally] clause up to its [yield row_data]: evaluating the local
    [row_data] raises [UnboundLocalError] when it was never assigned, with
    the exception in flight (if any) as its context. *)
Definition read_pzem_data_finally (row_data : option row)
    (in_flight : option exn) : M row :=
  match row_data with
  | Some r => ret r
  | None => raise (UnboundLocalError "row_data" in_flight)
  end.

(** The generator body from its start to the first [yield]. *)
Definition read_pzem_data_body (i : instrument) : M row := λ w,
  match try_except (let* r := read_pzem_data_try i in ret (Some r))
                   read_pzem_data_except w with
  | (Ok row_data, w') => read_pzem_data_finally row_data None w'
  | (Raise e, w') => read_pzem_data_finally None (Some e) w'
  | (OutOfFuel, w') => (OutOfFuel, w')
  end.

(** Calling [read_pzem_data(instrument)] only makes the generator object. *)
Definition read_pzem_data (i : instrument) : M nat := λ w,
  (Ok (length (generators w)),
   set_generators (generators w ++ [GenCreated]) w).

Definition set_gen (g : nat) (s : gen_state) : M unit :=
  modify (λ w, set_generators (<[g := s]> (generators w)) w).

(** [next(g)]: [Ok (Some r)] for a yielded row, [Ok None] for
    [StopIteration].  Resuming after the [yield] leaves the [finally]
    clause with nothing in flight, and the generator returns. *)
Definition gen_next (i : instrument) (g : nat) : M (option row) := λ w,
  match generators w !! g with
  | Some GenCreated =>
      match read_pzem_data_body i w with
      | (Ok r, w') => (Ok (Some r), snd (set_gen g GenSuspended w'))
      | (Raise e, w') => (Raise e, snd (set_gen g GenFinished w'))
      | (OutOfFuel, w') => (OutOfFuel, w')
      end
  | Some GenSuspended => (Ok None, snd (set_gen g GenFinished w))
  | Some GenFinished | None => (Ok None, w)
  end.

(** *** [log_file] *)

(** The [while os.path.exists(new_filepath)] loop with its three locals. *)
Fixpoint unique_filepath (fuel : nat) (new_folder_path file_name : string)
    (outfile : string) (n : nat) (new_filepath : string)
    : M (string * nat * string) :=
  match fuel with
  | O => out_of_fuel
  | S fuel' =>
      let* w := get_world in
      if Os.path_exists (fs w) new_filepath then
        let outfile := file_name +:+ "_" +:+ pretty n +:+ ".csv" in
        let n := (n + 1)%nat in
        let new_filepath := Os.path_join new_folder_path outfile in
        unique_filepath fuel' new_folder_path file_name outfile n new_filepath
      else ret (outfile, n, new_filepath)
  end.

Definition header : list string :=
  ["Time"; "Voltage in V"; "Current in A"; "Power in W"; "Energy in Wh";
   "High Voltage Alarm"; "Low Voltage Alarm"].

Definition log_file (fuel : nat) (outfile dir : string) : M string :=
  Os.makedirs dir ;;
  (* Check if the outfile has a .csv extension *)
  let '(file_name, extension) := Os.path_splitext outfile in
  if bool_decide (PyStr.lower extension ≠ ".csv") then
    raise (ValueError ("Outfile must be a .csv file, got '" +:+ outfile
                         +:+ "' instead."))
  else
    let new_folder_name := "log_files" in
    let new_folder_path := Os.path_join dir new_folder_name in
    try_except (Os.makedirs new_folder_path)
      (λ e, if is_OSError e
            then print ("Error creating folder " +:+ new_folder_path
                          +:+ ": " +:+ str_exn e)
            else raise e) ;;
    let new_filepath := Os.path_join new_folder_path outfile in
    (* Make sure not to overwrite an existing file; nothing in the loop
       raises the RuntimeError its [except] clause names *)
    let* (outfile, n, new_filepath) :=
      unique_filepath fuel new_folder_path file_name outfile 1 new_filepath in
    (* Write header row: *)
    let* f := Os.open_append new_filepath in
    Os.writerow f (CStr <$> header) ;;
    ret new_filepath.

(** *** [write_results] *)

(** [for csv_str in csv_strings: writer.writerow(csv_str)]; a Ctrl-C may
    land between receiving a row and writing it. *)
Fixpoint write_rows (fuel : nat) (i : instrument) (csv_strings : nat)
    (f : path) : M unit :=
  match fuel with
  | O => out_of_fuel
  | S fuel' =>
      let* item := gen_next i csv_strings in
      match item with
      | None => ret tt
      | Some csv_str =>
          checkpoint ;;
          Os.writerow f csv_str ;;
          write_rows fuel' i csv_strings f
      end
  end.

Definition write_results (fuel : nat) (i : instrument) (csv_strings : nat)
    (filepath : string) : M unit :=
  let* f := Os.open_append filepath in
  write_rows fuel i csv_strings f.

(** *** [main] *)

(** The [except KeyboardInterrupt] clause; [data_gen] is [None] while the
    local has not been assigned. [Ok] means the [break] was reached. *)
Definition main_except (fuel : nat) (i : instrument) (log_filepath : string)
    (data_gen : option nat) (e : exn) : M unit :=
  if is_KeyboardInterrupt e then
    match data_gen with
    | None => raise (UnboundLocalError "data_gen" (Some e))
    | Some g =>
        write_results fuel i g log_filepath ;;
        serial_close i
    end
  else raise e.

(** One pass through the body of [while True]: [Some g] to go round again
    with [data_gen] bound to [g], [None] after [break]. A Ctrl-C may land
    at the top of the [try] block, before [data_gen] is rebound. *)
Definition main_iteration (fuel : nat) (i : instrument)
    (log_filepath : string) (data_gen : option nat) : M (option nat) :=
  let* started :=
    try_except (checkpoint ;; let* g := read_pzem_data i in ret (Some g))
               (λ e, main_except fuel i log_filepath data_gen e ;; ret None) in
  match started with
  | None => ret None
  | Some g =>
      try_except (write_results fuel i g log_filepath ;; ret (Some g))
                 (λ e, main_except fuel i log_filepath (Some g) e ;; ret None)
  end.

Fixpoint main_loop (fuel n : nat) (i : instrument) (log_filepath : string)
    (data_gen : option nat) : M unit :=
  match n with
  | O => out_of_fuel
  | S n' =>
      let* next := main_iteration fuel i log_filepath data_gen in
      match next with
      | None => ret tt
      | Some g => main_loop fuel n' i log_filepath (Some g)
      end
  end.

(** [main()]: [Ok] is a normal return (exit status 0), [Raise] an uncaught
    exception (traceback, non-zero status), [OutOfFuel] a loop still
    running after [fuel] rounds. *)
Definition main (fuel : nat) : M unit :=
  let* instrument := init in
  let* log_filepath := log_file fuel "pzem_logs.csv" "./" in
  print "Instrument and log file successfully initialized. Logging to CSV file now..." ;;
  main_loop fuel fuel instrument log_filepath None.

(** * Vocabulary of the properties *)

(** ** Observations *)

(** The rows of the regular file at a canonical path, if there is one. *)
Definition rows_at (w : world) (p : path) : option (list row) :=
  match fs w !! p with
  | Some (File rows) => Some rows
  | _ => None
  end.

(** The entries of directory [d]. *)
Definition dir_entries (f : gmap path node) (d : path) : gmap path node :=
  filter (λ kv, removelast kv.1 = d ∧ kv.1 ≠ []) f.

(** Every directory on the way to [cur] is a directory. *)
Definition reachable (f : gmap path node) (cur : path) : Prop :=
  ∀ k : nat, Os.is_dir f (take k cur) = true.

(** The next eight reads of the transport return the words [regs], the
    [j]-th being asked at address [j]. *)
Definition reads_return (w : world) (regs : list Z) : Prop :=
  ∀ (j : nat) (v : Z),
    regs !! j = Some v →
    device w (j + reads_done w)%nat (Z.of_nat j) = inr v.

(** The text of the header record in the file. *)
Definition header_line : string :=
  "Time,Voltage in V,Current in A,Power in W,Energy in Wh,High Voltage Alarm,Low Voltage Alarm"
    +:+ Csv.lineterminator.

(** ** A failed poll cycle *)

(** What the failed cycle prints. *)
Definition diagnostic (e : exn) : list string :=
  if is_IllegalRequestError e then ["Error: " +:+ str_exn e] else [].

(** What takes the place of the exception [e] of a register read. *)
Definition replacement (e : exn) : exn :=
  UnboundLocalError "row_data"
    (if is_IllegalRequestError e then None else Some e).

(** How many exceptions are chained behind [e] as contexts. *)
Fixpoint context_depth (e : exn) : nat :=
  match e with
  | UnboundLocalError _ (Some c) => S (context_depth c)
  | _ => O
  end.

(** The world in which the generator of a round starts to run: past the
    top of the round, the generator object made, the log opened. *)
Definition poll_start (i : instrument) (log_filepath : string) (w : world)
    : result path * world :=
  Os.open_append log_filepath (read_pzem_data i (checkpoint w).2).2.

(** ** The names [log_file] tries *)

(** What follows [file_name] in the [k]-th name tried: the extension as
    given at first, then [_1.csv], [_2.csv], ... *)
Definition suffix (extension : string) (k : nat) : string :=
  match k with
  | O => extension
  | S _ => "_" +:+ pretty k +:+ ".csv"
  end.

Definition candidate (new_folder_path file_name extension : string)
    (k : nat) : string :=
  Os.path_join new_folder_path (file_name +:+ suffix extension k).

(** The file system in which the loop of [log_file] looks for a free
    name: the one the two [os.makedirs] calls before it leave. *)
Definition probed (dir : string) (w : world) : gmap path node :=
  fs (Os.makedirs (Os.path_join dir "log_files") (Os.makedirs dir w).2).2.


(** A suffix that can only make the last component longer. *)
Definition plain (x : string) : Prop :=
  PyStr.contains "/" x = false ∧ (3 ≤ String.length x)%nat.


(** ** Readings and rounds *)

(** The device answers every read, with the words [regs]: [regs k a] is
    the answer to the [k]-th read of the run, asked at address [a]. *)
Definition answers (w : world) (regs : nat → Z → Z) : Prop :=
  ∀ (k : nat) (a : Z), device w k a = inr (regs k a).

(** The row decoded from the words of the cycle whose first read is the
    [r]-th of the run, stamped [time]. *)
Definition reading_of (regs : nat → Z → Z) (r : nat) (time : string) : row :=
  [CStr time;
   CFloat (PrimFloat.div (float_of_int (regs r 0)) (float_of_int 100));
   CFloat (PrimFloat.div (float_of_int (regs (1 + r)%nat 1)) (float_of_int 100));
   CFloat (PrimFloat.mul
             (float_of_int (Z.shiftl (regs (3 + r)%nat 3) 16 + regs (2 + r)%nat 2))
             0.1%float);
   CFloat (float_of_int (Z.shiftl (regs (5 + r)%nat 5) 16 + regs (4 + r)%nat 4));
   CInt (regs (6 + r)%nat 6); CInt (regs (7 + r)%nat 7)].

(** The rows [n] successive cycles give, the first of them starting at
    read [r] and clock reading [c]. *)
Definition readings (regs : nat → Z → Z) (clock : nat → string)
    (r c n : nat) : list row :=
  (λ k, reading_of regs (8 * k + r)%nat (clock (k + c)%nat)) <$> seq 0 n.

(** The world after [write_results] has taken the one row [r] of the
    fresh generator [g] into the file [f] that held [rows]. *)
Definition after_poll (w : world) (g : nat) (f : path) (rows : list row)
    (r : row) : world :=
  mkWorld (<[f := File (rows ++ [r])]> (fs w)) (stdout w) (device w)
          (8 + reads_done w) (serial_open w) (clock w) (S (clock_reads w))
          (sigint w) (S (ticks w))
          (<[g := GenFinished]> (<[g := GenSuspended]> (generators w)))
          (port_error w).

(** The world after one round of the loop of [main] in which nothing
    goes wrong. *)
Definition after_round (w : world) (f : path) (rows : list row) (r : row)
    : world :=
  mkWorld (<[f := File (rows ++ [r])]> (fs w)) (stdout w) (device w)
          (8 + reads_done w) (serial_open w) (clock w) (S (clock_reads w))
          (sigint w) (2 + ticks w)
          (generators w ++ [GenFinished]) (port_error w).

(** ** Invariants of the effects *)

(** [m] never takes the world out of relation [R]. *)
Definition preserves (R : world → world → Prop) {A} (m : M A) : Prop :=
  ∀ w, R w (m w).2.

(** Entries are never removed; a directory stays what it is and a regular
    file only gains rows at its end. *)
Definition append_only (f f' : gmap path node) : Prop :=
  ∀ q nd, f !! q = Some nd →
    match nd with
    | Dir wr => f' !! q = Some (Dir wr)
    | File rows => ∃ new, f' !! q = Some (File (rows ++ new))
    end.

(** The file system only grows and the serial port is left as it is. *)
Definition growing (w w' : world) : Prop :=
  append_only (fs w) (fs w') ∧ serial_open w' = serial_open w.

(** Nothing but the file system and standard output differs. *)
Definition transport_untouched (w w' : world) : Prop :=
  device w' = device w ∧ reads_done w' = reads_done w
  ∧ serial_open w' = serial_open w ∧ clock w' = clock w
  ∧ clock_reads w' = clock_reads w ∧ sigint w' = sigint w
  ∧ ticks w' = ticks w ∧ generators w' = generators w.

(** What a step of [main] guarantees: the file system has only grown,
    and the port is closed exactly when the step ended the run normally. *)
Definition ends_well {A} (stops : A → bool) (w : world)
    (r : result A * world) : Prop :=
  append_only (fs w) (fs r.2)
  ∧ serial_open r.2
    = match r.1 with
      | Ok a => if stops a then false else serial_open w
      | _ => serial_open w
      end.

(** ** Sample worlds

    A device that always answers with the registers of the reading shown
    in the output-format example, an empty writable working directory, a
    clock stuck at one second, and a serial port that can be opened and
    is not yet open. *)

Definition steady_device : nat → Z → exn + Z := λ _ address,
  inr (match address with
       | 0 => 23015 | 1 => 102 | 2 => 456 | 3 => 0 | 4 => 1234 | _ => 0
       end).

Definition fresh_world (d : nat → Z → exn + Z) (sg : nat → bool) : world :=
  mkWorld ∅ [] d 0 false (λ _, "2024-01-01 12:00:00") 0 sg 0 [] None.

Definition never : nat → bool := λ _, false.

Definition pzem : instrument :=
  {| port := "/dev/ttyUSB0"; slaveaddress := 1; baudrate := 9600;
     bytesize := 8; parity := "N"; stopbits := 2; timeout := 1 |}.

Definition log_path : path := ["log_files"; "pzem_logs.csv"].

Definition sample_row : row :=
  [CStr "2024-01-01 12:00:00"; CFloat 230.15%float; CFloat 1.02%float;
   CFloat 45.6%float; CFloat 1234%float; CInt 0; CInt 0].

(** What an operator can see of a finished run: how [main] ended, the
    rows of the log, standard output, and whether the port is open. *)
Definition observe (r : result unit * world)
    : result unit * option (list row) * list string * bool :=
  (fst r, rows_at (snd r) log_path, stdout (snd r), serial_open (snd r)).

Definition ready : string :=
  "Instrument and log file successfully initialized. Logging to CSV file now...".

(** The device of the sample world, except that its [k]-th register read
    raises [e]. *)
Definition failing_at (k : nat) (e : exn) : nat → Z → exn + Z := λ j address,
  if bool_decide (j = k) then inl e else steady_device j address.

Definition at_tick (k : nat) : nat → bool := λ j, bool_decide (j = k).

(** The working directory after one, and after two, runs of [log_file]
    with its default arguments. *)
Definition after_one_run : world :=
  (log_file 1 "pzem_logs.csv" "./" (fresh_world steady_device never)).2.

Definition after_two_runs : world :=
  (log_file 2 "pzem_logs.csv" "./" after_one_run).2.

(** A working directory in which [name] is a regular file. *)
Definition with_regular_file (name : string) : world :=
  set_fs {[ [name] := File [] ]} (fresh_world steady_device never).

(** An empty working directory in which nothing may be created. *)
Definition read_only_cwd : world :=
  set_fs {[ [] := Dir false ]} (fresh_world steady_device never).

(** The sample world without the serial adapter plugged in. *)
Definition without_adapter : world :=
  mkWorld ∅ [] steady_device 0 false (λ _, "2024-01-01 12:00:00") 0 never 0 []
          (Some (TransportError "SerialException")).

(** The world of [main] when it enters its loop, for a given device. *)
Definition at_loop_entry (d : nat → Z → exn + Z) : world :=
  (print ready
     (log_file 1 "pzem_logs.csv" "./" (init (fresh_world d never)).2).2).2.

(** A working directory in which the default log can be made: the
    folder [log_files] is a writable directory, or it is missing and
    entries may be created in the working directory. *)
Definition healthy (f : gmap path node) : Prop :=
  (Os.lookup_node f ["log_files"] = None ∧ Os.is_writable_dir f [] = true)
  ∨ Os.lookup_node f ["log_files"] = Some (Dir true).

(** The register words behind [steady_device]. *)
Definition steady_regs : nat → Z → Z := λ _ address,
  match address with
  | 0 => 23015 | 1 => 102 | 2 => 456 | 3 => 0 | 4 => 1234 | _ => 0
  end.

(** The loop entry of [main] with an interrupt script [sg]. *)
Definition at_loop_entry_with (sg : nat → bool) : world :=
  (print ready
     (log_file 1 "pzem_logs.csv" "./" (init (fresh_world steady_device sg)).2).2).2.

(** The loop entry with the generator of the first round made, and the
    same after [write_results] has used that generator up. *)
Definition first_generator : world :=
  (read_pzem_data pzem (at_loop_entry steady_device)).2.

Definition first_generator_used : world :=
  (write_results 2 pzem 0 "./log_files/pzem_logs.csv" first_generator).2.

(** * Properties *)

(** ** The library functions on sample inputs *)

Example splitext_default :
  Os.path_splitext "pzem_logs.csv" = ("pzem_logs", ".csv").
Proof. reflexivity. Qed.

Example splitext_leading_dot : Os.path_splitext ".csv" = (".csv", "").
Proof. reflexivity. Qed.

Example splitext_upper_case :
  Os.path_splitext "run.1/LOG.CSV" = ("run.1/LOG", ".CSV").
Proof. reflexivity. Qed.

Example splitext_dot_in_directory : Os.path_splitext "run.1/log" = ("run.1/log", "").
Proof. reflexivity. Qed.

Example join_default :
  Os.path_join (Os.path_join "./" "log_files") "pzem_logs.csv"
  = "./log_files/pzem_logs.csv".
Proof. reflexivity. Qed.

Example join_absolute : Os.path_join "./log_files" "/x.csv" = "/x.csv".
Proof. reflexivity. Qed.

Example components_default :
  Os.components "./log_files//pzem_logs.csv" = ["."; "log_files"; "pzem_logs.csv"].
Proof. reflexivity. Qed.

Example lower_extension : PyStr.lower ".CsV" = ".csv".
Proof. reflexivity. Qed.

Example third_name : suffix ".CSV" 3 = "_3.csv".
Proof. by vm_compute. Qed.

Example float_of_combined_words :
  PrimFloat.mul (float_of_int (Z.shiftl 1 16 + 3)) 0.1%float = 6553.900000000001%float.
Proof. by vm_compute. Qed.

(** ** Decoding the registers *)

Lemma read_raw_returns (w : world) (a v : Z) :
  device w (reads_done w) a = inr v →
  read_raw a w = (Ok v, set_reads_done (S (reads_done w)) w).
Proof. intros H. unfold read_raw. by rewrite H. Qed.

(** Steps over the next register read, given that it returns. *)
Ltac next_read Hk :=
  match goal with
  | |- context [read_raw ?a ?w0] =>
      rewrite (read_raw_returns w0 a _ Hk); cbv beta iota delta [ret]
  end.

Lemma read_pzem_data_try_returns (i : instrument) (w : world)
    (v c pl ph el eh ha la : Z) :
  reads_return w [v; c; pl; ph; el; eh; ha; la] →
  read_pzem_data_try i w =
    (Ok [CStr (clock w (clock_reads w));
         CFloat (PrimFloat.div (float_of_int v) (float_of_int 100));
         CFloat (PrimFloat.div (float_of_int c) (float_of_int 100));
         CFloat (PrimFloat.mul (float_of_int (Z.shiftl ph 16 + pl)) 0.1%float);
         CFloat (float_of_int (Z.shiftl eh 16 + el));
         CInt ha; CInt la],
     set_clock_reads (S (clock_reads w))
       (set_reads_done (8 + reads_done w) w)).
Proof.
  intros H.
  pose proof (H 0%nat _ eq_refl : device w (reads_done w) 0 = _) as H0.
  pose proof (H 1%nat _ eq_refl : device w (S (reads_done w)) 1 = _) as H1.
  pose proof (H 2%nat _ eq_refl : device w (2 + reads_done w)%nat 2 = _) as H2.
  pose proof (H 3%nat _ eq_refl : device w (3 + reads_done w)%nat 3 = _) as H3.
  pose proof (H 4%nat _ eq_refl : device w (4 + reads_done w)%nat 4 = _) as H4.
  pose proof (H 5%nat _ eq_refl : device w (5 + reads_done w)%nat 5 = _) as H5.
  pose proof (H 6%nat _ eq_refl : device w (6 + reads_done w)%nat 6 = _) as H6.
  pose proof (H 7%nat _ eq_refl : device w (7 + reads_done w)%nat 7 = _) as H7.
  unfold read_pzem_data_try, read_register_decimals, read_register, bind.
  next_read H0. next_read H1. next_read H2. next_read H3.
  next_read H4. next_read H5. next_read H6. next_read H7.
  reflexivity.
Qed.

Lemma low_word_is_least_significant (high low : Z) :
  0 ≤ low < 65536 →
  Z.land (Z.shiftl high 16 + low) 65535 = low
  ∧ Z.shiftr (Z.shiftl high 16 + low) 16 = high.
Proof.
  intros Hlow. rewrite Z.shiftl_mul_pow2 by lia.
  change 65535 with (Z.ones 16). rewrite Z.land_ones by lia.
  rewrite Z.shiftr_div_pow2 by lia.
  change (2 ^ 16) with 65536. split.
  - rewrite Z.add_comm, Z.mod_add by lia. apply Z.mod_small; lia.
  - rewrite Z.add_comm, Z.div_add by lia. rewrite Z.div_small by lia. lia.
Qed.

(** C1. Whenever all eight register reads of a poll cycle return, the
    generator yields a reading whose power is
    [((power_high << 16) + power_low) * 0.1] and whose energy is
    [(energy_high << 16) + energy_low], both as doubles; for a 16-bit low
    word the low word is the least-significant half of the combined
    integer and the high word the rest; and with [power_low = 456],
    [power_high = 0] the power is the double [45.6]. *)
Theorem decoding_of_a_successful_cycle (i : instrument) (w : world)
    (voltage current power_low power_high energy_low energy_high
     high_voltage_alarm low_voltage_alarm : Z) :
  reads_return w [voltage; current; power_low; power_high; energy_low;
                  energy_high; high_voltage_alarm; low_voltage_alarm] →
  (∃ (time : string) (voltage_v current_a : float) (w' : world),
     read_pzem_data_body i w =
       (Ok [CStr time; CFloat voltage_v; CFloat current_a;
            CFloat (PrimFloat.mul
                      (float_of_int (Z.shiftl power_high 16 + power_low))
                      0.1%float);
            CFloat (float_of_int (Z.shiftl energy_high 16 + energy_low));
            CInt high_voltage_alarm; CInt low_voltage_alarm], w'))
  ∧ (0 ≤ power_low < 65536 →
     Z.land (Z.shiftl power_high 16 + power_low) 65535 = power_low
     ∧ Z.shiftr (Z.shiftl power_high 16 + power_low) 16 = power_high)
  ∧ (0 ≤ energy_low < 65536 →
     Z.land (Z.shiftl energy_high 16 + energy_low) 65535 = energy_low
     ∧ Z.shiftr (Z.shiftl energy_high 16 + energy_low) 16 = energy_high)
  ∧ (power_low = 456 → power_high = 0 →
     PrimFloat.mul (float_of_int (Z.shiftl power_high 16 + power_low))
                   0.1%float = 45.6%float).
Proof.
  intros H. split; [|split; [|split]].
  - do 4 eexists. unfold read_pzem_data_body, try_except, bind.
    rewrite (read_pzem_data_try_returns i w _ _ _ _ _ _ _ _ H). reflexivity.
  - apply low_word_is_least_significant.
  - apply low_word_is_least_significant.
  - intros -> ->. vm_compute. reflexivity.
Qed.

Lemma steady_device_reads_return (sg : nat → bool) :
  reads_return (fresh_world steady_device sg) [23015; 102; 456; 0; 1234; 0; 0; 0].
Proof.
  intros j v Hj.
  do 8 (destruct j as [|j]; [by inversion Hj|]). inversion Hj.
Qed.

Lemma decoding_of_a_successful_cycle_witness :
  (∃ (time : string) (voltage_v current_a : float) (w' : world),
     read_pzem_data_body pzem (fresh_world steady_device never) =
       (Ok [CStr time; CFloat voltage_v; CFloat current_a;
            CFloat 45.6%float; CFloat 1234%float; CInt 0; CInt 0], w')).
Proof.
  exact (proj1 (decoding_of_a_successful_cycle pzem
                  (fresh_world steady_device never)
                  23015 102 456 0 1234 0 0 0
                  (steady_device_reads_return never))).
Defined.

(** ** A failed register read and the main loop *)

(** Whatever a register read raises, the [finally] clause then evaluates
    the unassigned local [row_data]: the generator never yields, and what
    leaves it is [UnboundLocalError]. *)
Lemma read_pzem_data_body_raises (i : instrument) (w w1 : world) (e : exn) :
  read_pzem_data_try i w = (Raise e, w1) →
  read_pzem_data_body i w =
    if is_IllegalRequestError e
    then (Raise (UnboundLocalError "row_data" None),
          set_stdout (stdout w1 ++ ["Error: " +:+ str_exn e]) w1)
    else (Raise (UnboundLocalError "row_data" (Some e)), w1).
Proof.
  intros H. unfold read_pzem_data_body, try_except, bind. rewrite H.
  unfold read_pzem_data_except. by destruct e.
Qed.

Lemma gen_next_raises (i : instrument) (g : nat) (w w1 : world) (e : exn) :
  generators w !! g = Some GenCreated →
  read_pzem_data_try i w = (Raise e, w1) →
  ∃ w', gen_next i g w = (Raise (replacement e), w')
        ∧ fs w' = fs w1
        ∧ stdout w' = stdout w1 ++ diagnostic e
        ∧ serial_open w' = serial_open w1.
Proof.
  intros Hg H. unfold gen_next. rewrite Hg.
  rewrite (read_pzem_data_body_raises i w w1 e H).
  unfold replacement, diagnostic.
  destruct (is_IllegalRequestError e); eexists; repeat split; try reflexivity.
  cbn. by rewrite app_nil_r.
Qed.

(** The reads and the clock touch only their own counters. *)
Lemma read_pzem_data_try_frame (i : instrument) (w : world) :
  fs (read_pzem_data_try i w).2 = fs w
  ∧ stdout (read_pzem_data_try i w).2 = stdout w
  ∧ serial_open (read_pzem_data_try i w).2 = serial_open w
  ∧ generators (read_pzem_data_try i w).2 = generators w.
Proof.
  unfold read_pzem_data_try, read_register_decimals, read_register,
    read_raw, strftime, bind, ret.
  repeat (cbn [device reads_done set_reads_done fst snd];
          match goal with
          | |- context [device w ?k ?a] => destruct (device w k a)
          end).
  all: cbn; done.
Qed.

(** A poll cycle in which a register read raises, whatever the exception:
    [write_results] passes on the [UnboundLocalError] of the generator and
    appends nothing. *)
Lemma write_results_read_failure (fuel : nat) (i : instrument) (g : nat)
    (filepath : string) (f : path) (w w0 w1 : world) (e : exn) :
  Os.open_append filepath w = (Ok f, w0) →
  generators w0 !! g = Some GenCreated →
  read_pzem_data_try i w0 = (Raise e, w1) →
  ∃ w', write_results (S fuel) i g filepath w = (Raise (replacement e), w')
        ∧ fs w' = fs w0
        ∧ stdout w' = stdout w0 ++ diagnostic e
        ∧ serial_open w' = serial_open w0.
Proof.
  intros Hopen Hg Htry.
  destruct (gen_next_raises i g w0 w1 e Hg Htry)
    as (w' & Hnext & Hfs & Hout & Hso).
  exists w'. unfold write_results, bind. rewrite Hopen.
  cbn [write_rows]. unfold bind. rewrite Hnext.
  pose proof (read_pzem_data_try_frame i w0) as (Hf & Ho & Hs & _).
  rewrite Htry in Hf, Ho, Hs. cbn [snd] in Hf, Ho, Hs.
  repeat split; congruence.
Qed.

(** With no interrupt pending at the top of the round, such a cycle ends
    [main_loop]: the handler of [main] lets the [UnboundLocalError]
    through, nothing is appended and the port stays as it was. *)
Lemma main_loop_read_failure (fuel n : nat) (i : instrument)
    (log_filepath : string) (data_gen : option nat) (f : path)
    (w w0 w1 : world) (e : exn) :
  sigint w (ticks w) = false →
  poll_start i log_filepath w = (Ok f, w0) →
  read_pzem_data_try i w0 = (Raise e, w1) →
  ∃ w', main_loop (S fuel) (S n) i log_filepath data_gen w
        = (Raise (replacement e), w')
        ∧ fs w' = fs w0
        ∧ stdout w' = stdout w ++ diagnostic e
        ∧ serial_open w' = serial_open w.
Proof.
  intros Hsig Hopen Htry. unfold poll_start in Hopen.
  assert (generators w0 !! length (generators w) = Some GenCreated
          ∧ serial_open w0 = serial_open w
          ∧ stdout w0 = stdout w) as (Hg & Hso & Hout).
  { revert Hopen. unfold Os.open_append, read_pzem_data, checkpoint.
    rewrite Hsig. cbn [fst snd].
    repeat case_match; intros [= _ <-]; cbn;
      by rewrite lookup_app_r, Nat.sub_diag. }
  destruct (write_results_read_failure fuel i _ log_filepath f _ w0 w1 e
              Hopen Hg Htry) as (w' & Hwr & Hfs & Hout' & Hso').
  exists w'. split; [|repeat split; congruence].
  cbn [main_loop]. unfold bind, main_iteration, bind, try_except.
  unfold checkpoint at 1. rewrite Hsig.
  unfold read_pzem_data at 1. cbn [ret fst snd].
  unfold checkpoint, read_pzem_data in Hwr. rewrite Hsig in Hwr.
  cbn [fst snd generators set_ticks] in Hwr. cbn [generators set_ticks].
  rewrite Hwr.
  unfold main_except, replacement. cbn. unfold bind, raise. done.
Qed.

(** C2 (the code departs from it). In any round of the loop, a poll
    cycle in which a register read raises the illegal-request error prints
    the diagnostic and appends nothing, but the loop does not go on to the
    next cycle: [main_loop] ends there with an uncaught
    [UnboundLocalError]. So from a device that fails on any of the eight
    reads of the first cycle and would answer every later read, [main]
    ends with the log holding the header only, however many rounds it is
    given. *)
Theorem illegal_request_ends_the_run (fuel n : nat) (i : instrument)
    (log_filepath : string) (data_gen : option nat) (f : path)
    (w w0 w1 : world) (msg : string) :
  sigint w (ticks w) = false →
  poll_start i log_filepath w = (Ok f, w0) →
  read_pzem_data_try i w0 = (Raise (IllegalRequestError msg), w1) →
  (∃ w', main_loop (S fuel) (S n) i log_filepath data_gen w
         = (Raise (UnboundLocalError "row_data" None), w')
         ∧ fs w' = fs w0
         ∧ stdout w' = stdout w ++ ["Error: " +:+ msg]
         ∧ serial_open w' = serial_open w)
  ∧ Forall (λ j,
        observe (main (S fuel)
                   (fresh_world (failing_at j (IllegalRequestError msg)) never))
        = (Raise (UnboundLocalError "row_data" None),
           Some [CStr <$> header],
           [ready; "Error: " +:+ msg], true))
      (seq 0 8).
Proof.
  intros Hsig Hopen Htry. split.
  - exact (main_loop_read_failure fuel n i log_filepath data_gen f w w0 w1
             _ Hsig Hopen Htry).
  - repeat constructor; vm_compute; reflexivity.
Qed.

Lemma illegal_request_ends_the_run_witness :
  ∃ w', main_loop 2 2 pzem "./log_files/pzem_logs.csv" None
          (at_loop_entry (failing_at 3 (IllegalRequestError "Illegal data address")))
        = (Raise (UnboundLocalError "row_data" None), w')
        ∧ rows_at w' log_path = Some [CStr <$> header].
Proof.
  destruct (illegal_request_ends_the_run 1 1 pzem "./log_files/pzem_logs.csv"
              None log_path
              (at_loop_entry (failing_at 3 (IllegalRequestError "Illegal data address")))
              _ _ "Illegal data address"
              ltac:(vm_compute; reflexivity)
              ltac:(vm_compute; reflexivity)
              ltac:(vm_compute; reflexivity))
    as [(w' & Hrun & Hfs & _) _].
  exists w'. split; [exact Hrun|].
  unfold rows_at. rewrite Hfs. vm_compute. reflexivity.
Defined.

(** C4 (the code departs from it). In any round of the loop, a poll
    cycle in which a register read raises any other exception ends
    [main_loop] and appends nothing, but the exception that leaves the
    read path and ends the process is the [UnboundLocalError] of the
    [finally] clause, the original error being only its context. *)
Theorem other_read_error_is_replaced (fuel n : nat) (i : instrument)
    (log_filepath : string) (data_gen : option nat) (f : path)
    (w w0 w1 : world) (e : exn) :
  is_IllegalRequestError e = false →
  sigint w (ticks w) = false →
  poll_start i log_filepath w = (Ok f, w0) →
  read_pzem_data_try i w0 = (Raise e, w1) →
  (∃ w', main_loop (S fuel) (S n) i log_filepath data_gen w
         = (Raise (UnboundLocalError "row_data" (Some e)), w')
         ∧ UnboundLocalError "row_data" (Some e) ≠ e
         ∧ fs w' = fs w0
         ∧ stdout w' = stdout w
         ∧ serial_open w' = serial_open w)
  ∧ ∀ name : string,
      Forall (λ j,
          observe (main (S fuel)
                     (fresh_world (failing_at j (TransportError name)) never))
          = (Raise (UnboundLocalError "row_data" (Some (TransportError name))),
             Some [CStr <$> header], [ready], true))
        (seq 0 8).
Proof.
  intros He Hsig Hopen Htry. split.
  - destruct (main_loop_read_failure fuel n i log_filepath data_gen f w w0 w1
                e Hsig Hopen Htry) as (w' & Hrun & Hfs & Hout & Hso).
    unfold replacement, diagnostic in *. rewrite He in *.
    rewrite app_nil_r in Hout. exists w'. repeat split; try done.
    intros Heq. apply (f_equal context_depth) in Heq. cbn in Heq. lia.
  - intros name. repeat constructor; vm_compute; reflexivity.
Qed.

Lemma other_read_error_is_replaced_witness :
  ∃ w', main_loop 2 2 pzem "./log_files/pzem_logs.csv" None
          (at_loop_entry (failing_at 5 (TransportError "NoResponseError")))
        = (Raise (UnboundLocalError "row_data"
                    (Some (TransportError "NoResponseError"))), w').
Proof.
  destruct (other_read_error_is_replaced 1 1 pzem "./log_files/pzem_logs.csv"
              None log_path
              (at_loop_entry (failing_at 5 (TransportError "NoResponseError")))
              _ _ (TransportError "NoResponseError")
              eq_refl
              ltac:(vm_compute; reflexivity)
              ltac:(vm_compute; reflexivity)
              ltac:(vm_compute; reflexivity))
    as [(w' & Hrun & _) _].
  exists w'. exact Hrun.
Defined.

(** An interrupt at the top of a round, when the generator of the round
    before has been used up: the handler finds nothing to write, closes
    the port, and the loop is left normally. *)
Lemma interrupt_between_cycles (fuel n : nat) (i : instrument)
    (log_filepath : string) (g : nat) (f : path) (w w0 : world) :
  sigint w (ticks w) = true →
  generators w !! g = Some GenFinished →
  Os.open_append log_filepath (checkpoint w).2 = (Ok f, w0) →
  main_loop (S fuel) (S n) i log_filepath (Some g) w
  = (Ok tt, set_serial_open false w0).
Proof.
  intros Hsig Hg Hopen.
  assert (generators w0 !! g = Some GenFinished) as Hg0.
  { revert Hopen. unfold Os.open_append, checkpoint. rewrite Hsig.
    cbn [fst snd]. repeat case_match; by intros [= _ <-]. }
  cbn [main_loop]. unfold bind at 1. unfold main_iteration, bind at 1.
  unfold try_except, bind at 1. unfold checkpoint at 1. rewrite Hsig.
  unfold checkpoint in Hopen. rewrite Hsig in Hopen. cbn [snd] in Hopen.
  unfold main_except. cbn [is_KeyboardInterrupt].
  unfold write_results, bind. rewrite Hopen.
  cbn [write_rows]. unfold bind, gen_next. rewrite Hg0. done.
Qed.

(** C7 (the code departs from it). An interrupt that arrives while a
    register read is blocking, in any round of the loop, is replaced in
    the generator by [UnboundLocalError]: the handler of [main] is not
    entered, [main_loop] ends with that exception and the serial port is
    left as it was. In a run from an empty directory, where the interrupt
    lands:
    - during any register read of the first cycle: [main] ends with an
      uncaught [UnboundLocalError], the serial port still open;
    - at the top of the first round, before [data_gen] is assigned: the
      same, from the handler itself;
    - between a row being yielded and written: [main] returns and the
      port is closed, but the reading in flight is not in the log;
    - at the top of the second round, nothing pending: [main] returns,
      the port is closed and the log holds the one reading. *)
Theorem interrupt_outcomes (fuel n : nat) (i : instrument)
    (log_filepath : string) (data_gen : option nat) (f : path)
    (w w0 w1 : world) :
  sigint w (ticks w) = false →
  poll_start i log_filepath w = (Ok f, w0) →
  read_pzem_data_try i w0 = (Raise KeyboardInterrupt, w1) →
  (∃ w', main_loop (S fuel) (S n) i log_filepath data_gen w
         = (Raise (UnboundLocalError "row_data" (Some KeyboardInterrupt)), w')
         ∧ fs w' = fs w0
         ∧ serial_open w' = serial_open w)
  ∧ Forall (λ j,
        observe (main (S fuel)
                   (fresh_world (failing_at j KeyboardInterrupt) never))
        = (Raise (UnboundLocalError "row_data" (Some KeyboardInterrupt)),
           Some [CStr <$> header], [ready], true))
      (seq 0 8)
  ∧ observe (main (S fuel) (fresh_world steady_device (at_tick 0)))
    = (Raise (UnboundLocalError "data_gen" (Some KeyboardInterrupt)),
       Some [CStr <$> header], [ready], true)
  ∧ observe (main (S (S fuel)) (fresh_world steady_device (at_tick 1)))
    = (Ok tt, Some [CStr <$> header], [ready], false)
  ∧ observe (main (S (S fuel)) (fresh_world steady_device (at_tick 2)))
    = (Ok tt, Some [CStr <$> header; sample_row], [ready], false).
Proof.
  intros Hsig Hopen Htry. split.
  - destruct (main_loop_read_failure fuel n i log_filepath data_gen f w w0 w1
                _ Hsig Hopen Htry) as (w' & Hrun & Hfs & _ & Hso).
    by exists w'.
  - split; [repeat constructor; vm_compute; reflexivity|].
    repeat split; vm_compute; reflexivity.
Qed.

Lemma interrupt_outcomes_witness :
  ∃ w', main_loop 2 2 pzem "./log_files/pzem_logs.csv" None
          (at_loop_entry (failing_at 0 KeyboardInterrupt))
        = (Raise (UnboundLocalError "row_data" (Some KeyboardInterrupt)), w')
        ∧ serial_open w' = true.
Proof.
  destruct (interrupt_outcomes 1 1 pzem "./log_files/pzem_logs.csv"
              None log_path
              (at_loop_entry (failing_at 0 KeyboardInterrupt))
              _ _
              ltac:(vm_compute; reflexivity)
              ltac:(vm_compute; reflexivity)
              ltac:(vm_compute; reflexivity))
    as [(w' & Hrun & _ & Hso) _].
  exists w'. split; [exact Hrun|]. rewrite Hso. vm_compute. reflexivity.
Defined.

(** ** Strings and path names *)

Section StringFacts.

Implicit Types (s t x : string) (c d : ascii).

Lemma sapp_cons d s t : String d s +:+ t = String d (s +:+ t).
Proof. reflexivity. Qed.

Lemma sapp_nil_l s : "" +:+ s = s.
Proof. reflexivity. Qed.

Lemma sapp_nil_r s : s +:+ "" = s.
Proof. induction s as [|d s IH]; [done|]. by rewrite sapp_cons, IH. Qed.

Lemma sapp_assoc s t x : (s +:+ t) +:+ x = s +:+ (t +:+ x).
Proof. induction s as [|d s IH]; [done|]. by rewrite !sapp_cons, IH. Qed.

Lemma slength_app s t :
  String.length (s +:+ t) = (String.length s + String.length t)%nat.
Proof. induction s as [|d s IH]; [done|]. rewrite sapp_cons. cbn. by rewrite IH. Qed.

Lemma take_drop s (n : nat) : PyStr.take n s +:+ PyStr.drop n s = s.
Proof.
  revert s. induction n as [|n IH]; intros [|d s]; try done.
  cbn. by rewrite sapp_cons, IH.
Qed.

Lemma contains_app c s t :
  PyStr.contains c (s +:+ t) = PyStr.contains c s || PyStr.contains c t.
Proof.
  induction s as [|d s IH]; [done|]. rewrite sapp_cons. cbn. rewrite IH.
  by rewrite orb_assoc.
Qed.

Lemma startswith_app c s x :
  PyStr.contains c x = false →
  PyStr.startswith c (s +:+ x) = PyStr.startswith c s.
Proof.
  destruct s as [|d s]; [|done]. rewrite sapp_nil_l.
  destruct x as [|e x]; [done|].
  cbn. intros H. by apply orb_false_iff in H as [-> _].
Qed.


Lemma split_no_separator c x :
  PyStr.contains c x = false → PyStr.split c x = [x].
Proof.
  induction x as [|e x IH]; [done|]. cbn.
  intros [He Hc]%orb_false_iff. rewrite He. by rewrite (IH Hc).
Qed.

(** Appending text free of the separator only extends the last piece. *)
Lemma split_app c s :
  ∃ (init : list string) (last : string),
    PyStr.split c s = init ++ [last]
    ∧ ∀ x, PyStr.contains c x = false →
           PyStr.split c (s +:+ x) = init ++ [last +:+ x].
Proof.
  induction s as [|d s (init & last & Hs & Hx)].
  - exists [], "". split; [done|]. intros x Hc.
    rewrite !sapp_nil_l. by apply split_no_separator.
  - cbn [PyStr.split]. case_bool_decide as Hd.
    + exists ("" :: init), last. split; [by rewrite Hs|].
      intros x Hc. rewrite sapp_cons. cbn [PyStr.split].
      rewrite bool_decide_true by done. by rewrite (Hx x Hc).
    + destruct init as [|h init].
      * exists [], (String d last). split; [by rewrite Hs|].
        intros x Hc. rewrite sapp_cons. cbn [PyStr.split].
        rewrite bool_decide_false by done. by rewrite (Hx x Hc).
      * exists (String d h :: init), last. split; [by rewrite Hs|].
        intros x Hc. rewrite sapp_cons. cbn [PyStr.split].
        rewrite bool_decide_false by done. by rewrite (Hx x Hc).
Qed.



End StringFacts.

Section PathFacts.

Implicit Types (f : gmap path node) (cur p : path) (s x : string).

Lemma splitext_scan_app s (d i n : nat) (root ext : string) :
  Os.splitext_scan s d i n = (root, ext) → root +:+ ext = s.
Proof.
  revert i. induction n as [|n IH]; intros i; cbn.
  - intros [= <- <-]. apply sapp_nil_r.
  - case_bool_decide; [|by apply IH].
    intros [= <- <-]. apply take_drop.
Qed.

(** [root + ext == p] always holds for [os.path.splitext]. *)
Lemma path_splitext_app s (root ext : string) :
  Os.path_splitext s = (root, ext) → root +:+ ext = s.
Proof.
  unfold Os.path_splitext. case_match.
  - apply splitext_scan_app.
  - intros [= <- <-]. apply sapp_nil_r.
Qed.

Lemma path_join_app (a b x : string) :
  PyStr.contains "/" x = false →
  Os.path_join a (b +:+ x) = Os.path_join a b +:+ x.
Proof.
  intros Hx. unfold Os.path_join. rewrite (startswith_app _ _ _ Hx).
  repeat case_match; by rewrite ?sapp_assoc.
Qed.




Lemma plain_app_ne (l x y : string) :
  plain x → (String.length y ≤ 2)%nat → l +:+ x ≠ y.
Proof.
  intros [_ Hlen] Hy Heq. apply (f_equal String.length) in Heq.
  rewrite slength_app in Heq. lia.
Qed.

Lemma components_app s :
  ∃ (dirs : list string) (l : string),
    ∀ x, plain x → Os.components (s +:+ x) = dirs ++ [l +:+ x].
Proof.
  destruct (split_app "/" s) as (init & last & _ & Hx).
  exists (filter (λ c, c ≠ "") init), last. intros x Hp.
  unfold Os.components. rewrite (Hx x (proj1 Hp)).
  rewrite filter_app. f_equal.
  rewrite filter_cons_True; [done|]. apply plain_app_ne; [done|cbn; lia].
Qed.

Lemma walk_app f cur (l1 l2 : list string) :
  Os.walk f cur (l1 ++ l2) = Os.walk f cur l1 ≫= λ c, Os.walk f c l2.
Proof.
  revert cur. induction l1 as [|c l1 IH]; intros cur; [done|].
  cbn [app Os.walk]. destruct (Os.is_dir f cur); [|done].
  repeat case_bool_decide; apply IH.
Qed.

Lemma walk_name f cur (name : string) :
  name ≠ "." → name ≠ ".." →
  Os.walk f cur [name]
  = if Os.is_dir f cur then Some (cur ++ [name]) else None.
Proof.
  intros H1 H2. cbn. by rewrite !bool_decide_false.
Qed.

(** All names [s +:+ x], for plain suffixes [x], lead into one and the
    same directory (or nowhere), each to the entry [l +:+ x] of it. *)
Lemma locate_with_suffix f s :
  ∃ (home : option path) (l : string),
    ∀ x, plain x →
      Os.locate f (s +:+ x) = (λ cur, cur ++ [l +:+ x]) <$> home.
Proof.
  destruct (components_app s) as (dirs & l & Hc).
  exists (Os.walk f [] dirs ≫= λ cur,
            if Os.is_dir f cur then Some cur else None), l.
  intros x Hp. unfold Os.locate.
  rewrite bool_decide_false by (apply plain_app_ne; [done|cbn; lia]).
  rewrite (Hc x Hp), walk_app.
  destruct (Os.walk f [] dirs) as [cur|]; [|done]. cbn [mbind option_bind].
  rewrite walk_name by (apply plain_app_ne; [done|cbn; lia]).
  by destruct (Os.is_dir f cur).
Qed.

Lemma lookup_node_snoc f cur (name : string) :
  Os.lookup_node f (cur ++ [name]) = f !! (cur ++ [name]).
Proof. unfold Os.lookup_node. by destruct cur. Qed.

Lemma path_exists_with_suffix f s :
  ∃ (home : option path) (l : string),
    ∀ x, plain x →
      Os.path_exists f (s +:+ x)
      = match home with
        | Some cur => bool_decide (is_Some (f !! (cur ++ [l +:+ x])))
        | None => false
        end.
Proof.
  destruct (locate_with_suffix f s) as (home & l & H).
  exists home, l. intros x Hp. unfold Os.path_exists.
  rewrite (H x Hp). destruct home as [cur|]; [|done].
  cbn. by rewrite lookup_node_snoc.
Qed.

End PathFacts.

(** ** The names [log_file] tries *)

Section SuffixFacts.

Lemma pretty_N_go_no_slash (x : N) (s : string) :
  PyStr.contains "/" (pretty_N_go x s) = PyStr.contains "/" s.
Proof.
  revert s. induction (N.lt_wf_0 x) as [x _ IH]; intros s.
  assert (x = 0 ∨ 0 < x)%N as [->|?] by lia.
  - by rewrite pretty_N_go_0.
  - rewrite pretty_N_go_step by done. rewrite IH by (by apply N.div_lt).
    cbn [PyStr.contains]. rewrite bool_decide_false; [done|].
    unfold pretty_N_char. by repeat case_match.
Qed.

Lemma pretty_nat_no_slash (k : nat) : PyStr.contains "/" (pretty k) = false.
Proof.
  unfold pretty, pretty_nat, pretty, pretty_N.
  case_decide; [done|]. by rewrite pretty_N_go_no_slash.
Qed.

Lemma numbered_plain (k : nat) : plain ("_" +:+ pretty k +:+ ".csv").
Proof.
  split.
  - rewrite !contains_app, pretty_nat_no_slash. done.
  - rewrite !slength_app. cbn. lia.
Qed.

Lemma lower_char_slash (c : ascii) :
  c = "/"%char → PyStr.lower_char c ≠ "."%char
                 ∧ PyStr.lower_char c ≠ "c"%char
                 ∧ PyStr.lower_char c ≠ "s"%char
                 ∧ PyStr.lower_char c ≠ "v"%char.
Proof. intros ->. by vm_compute. Qed.

Lemma csv_extension_plain (extension : string) :
  PyStr.lower extension = ".csv" → plain extension.
Proof.
  destruct extension as [|c1 [|c2 [|c3 [|c4 [|c5 e]]]]]; try done.
  cbn [PyStr.lower]. intros [= H1 H2 H3 H4]. split; [|cbn; lia].
  cbn [PyStr.contains]. rewrite !orb_false_r.
  rewrite !bool_decide_false; [done|..]; intros Hc;
    destruct (lower_char_slash _ Hc) as (?&?&?&?); done.
Qed.

Lemma suffix_plain (extension : string) (k : nat) :
  PyStr.lower extension = ".csv" → plain (suffix extension k).
Proof.
  intros H. destruct k; [by apply csv_extension_plain|apply numbered_plain].
Qed.

Lemma suffix_inj (extension : string) (j k : nat) :
  PyStr.lower extension = ".csv" →
  suffix extension j = suffix extension k → j = k.
Proof.
  intros Hext. destruct j as [|j], k as [|k]; cbn [suffix]; [done|..].
  - intros ->. by vm_compute in Hext.
  - intros <-. by vm_compute in Hext.
  - intros H. apply (inj (String.app "_")) in H.
    assert (∀ a b : string, a +:+ ".csv" = b +:+ ".csv" → a = b) as Hcancel.
    { intros a. induction a as [|c a IH]; intros [|d b]; try done.
      - rewrite sapp_nil_l, sapp_cons. intros Hb.
        apply (f_equal String.length) in Hb.
        cbn in Hb. rewrite slength_app in Hb. cbn in Hb. lia.
      - rewrite sapp_nil_l, sapp_cons. intros Hb.
        apply (f_equal String.length) in Hb.
        cbn in Hb. rewrite slength_app in Hb. cbn in Hb. lia.
      - rewrite !sapp_cons. intros [= -> Hab]. f_equal. by apply IH. }
    apply Hcancel in H. by apply (inj pretty) in H.
Qed.

Lemma candidate_app (new_folder_path file_name extension : string) (k : nat) :
  PyStr.lower extension = ".csv" →
  candidate new_folder_path file_name extension k
  = Os.path_join new_folder_path file_name +:+ suffix extension k.
Proof.
  intros H. apply path_join_app, (suffix_plain _ _ H).
Qed.

End SuffixFacts.

(** ** The collision-avoidance loop *)

Section UniqueFilepath.

Context (new_folder_path file_name extension : string).

Local Notation "'cand'" := (candidate new_folder_path file_name extension).
Local Notation "'nm'" := (λ k : nat, file_name +:+ suffix extension k).

(** Entered with the [k]-th name, the loop either stops at the first
    free name from there on, or runs out of fuel having found every
    name it tried in use; it raises nothing and changes nothing. *)
Lemma unique_filepath_spec (fuel k : nat) (w : world) :
  match unique_filepath fuel new_folder_path file_name
                        (nm k) (S k) (cand k) w with
  | (Ok (o, n, p), w') =>
      w' = w ∧ ∃ j, n = S (k + j)%nat ∧ o = nm (k + j)%nat ∧ p = cand (k + j)%nat
                    ∧ Os.path_exists (fs w) p = false
                    ∧ ∀ i, (i < j)%nat →
                           Os.path_exists (fs w) (cand (k + i)%nat) = true
  | (Raise _, _) => False
  | (OutOfFuel, w') =>
      w' = w ∧ ∀ i, (i < fuel)%nat →
                    Os.path_exists (fs w) (cand (k + i)%nat) = true
  end.
Proof.
  revert k. induction fuel as [|fuel IH]; intros k.
  - cbn. split; [done|]. lia.
  - cbn [unique_filepath]. unfold bind, get_world.
    destruct (Os.path_exists (fs w) (cand k)) eqn:Hex.
    + rewrite Nat.add_1_r. specialize (IH (S k)).
      change (file_name +:+ "_" +:+ pretty (S k) +:+ ".csv") with (nm (S k)).
      change (Os.path_join new_folder_path (nm (S k))) with (cand (S k)).
      destruct (unique_filepath _ _ _ _ _ _ w) as [[[[o n] p]|e|] w'].
      * destruct IH as (-> & j & -> & -> & -> & Hfree & Hused).
        split; [done|]. exists (S j).
        replace (k + S j)%nat with (S k + j)%nat by lia.
        repeat split; try done.
        intros [|i] Hi; [by rewrite Nat.add_0_r|].
        replace (k + S i)%nat with (S k + i)%nat by lia. apply Hused. lia.
      * done.
      * destruct IH as (-> & Hused). split; [done|].
        intros [|i] Hi; [by rewrite Nat.add_0_r|].
        replace (k + S i)%nat with (S k + i)%nat by lia. apply Hused. lia.
    + cbn. split; [done|]. exists 0%nat. rewrite Nat.add_0_r.
      repeat split; try done. lia.
Qed.

Hypothesis csv : PyStr.lower extension = ".csv".

Lemma candidate_inj (j k : nat) : cand j = cand k → j = k.
Proof.
  rewrite !candidate_app by done. intros H.
  apply (inj (String.app _)) in H. by apply suffix_inj in H.
Qed.

(** Names in use are distinct entries of one directory, so there are no
    more of them than the directory has entries. *)
Lemma used_names_bound (f : gmap path node) (n : nat) :
  (∀ i, (i < n)%nat → Os.path_exists f (cand i) = true) →
  (n ≤ size f)%nat
  ∧ ∀ k p, (0 < n)%nat → Os.locate f (cand k) = Some p →
           (n ≤ size (dir_entries f (removelast p)))%nat.
Proof.
  intros Hused.
  destruct (locate_with_suffix f (Os.path_join new_folder_path file_name))
    as (home & l & Hloc).
  assert (∀ k, Os.locate f (cand k)
               = (λ cur, cur ++ [l +:+ suffix extension k]) <$> home) as Hl.
  { intros k. rewrite candidate_app by done. apply Hloc, suffix_plain, csv. }
  destruct n as [|n]; [split; [lia|intros; lia]|].
  destruct home as [cur|]; last first.
  { specialize (Hused 0%nat ltac:(lia)). unfold Os.path_exists in Hused.
    by rewrite Hl in Hused. }
  set (key := λ i : nat, cur ++ [l +:+ suffix extension i]).
  assert (Inj (=) (=) key) as Hinj.
  { intros i j Hij. unfold key in Hij. apply app_inv_head in Hij.
    injection Hij as Hij. apply (inj (String.app l)) in Hij.
    by apply suffix_inj in Hij. }
  assert (∀ i, (i < S n)%nat → key i ∈ dom (dir_entries f cur)) as Hdom.
  { intros i Hi. specialize (Hused i Hi). unfold Os.path_exists in Hused.
    rewrite Hl in Hused. cbn in Hused. rewrite lookup_node_snoc in Hused.
    apply bool_decide_eq_true in Hused as [v Hv].
    apply elem_of_dom. exists v. apply map_lookup_filter_Some.
    split; [done|]. cbn. unfold key. rewrite removelast_last.
    split; [done|]. by destruct cur. }
  assert (S n ≤ size (dir_entries f cur))%nat as Hsize.
  { rewrite <-size_dom.
    replace (S n) with (length (key <$> seq 0 (S n)))
      by (by rewrite length_fmap, length_seq).
    rewrite <-(size_list_to_set (C:=gset path)); last first.
    { apply NoDup_fmap_2; [done|]. apply NoDup_seq. }
    apply subseteq_size. intros p [i [-> Hi]]%elem_of_list_to_set%list_elem_of_fmap.
    apply Hdom. apply elem_of_seq in Hi. lia. }
  split.
  - etrans; [exact Hsize|]. apply map_subseteq_size, map_filter_subseteq.
  - intros k p _. rewrite Hl. cbn. intros [= <-].
    by rewrite removelast_last.
Qed.

(** With more fuel than the file system has entries the loop stops, at
    a name that does not depend on the fuel. *)
Lemma unique_filepath_stops (w : world) :
  ∃ j : nat,
    Os.path_exists (fs w) (cand j) = false
    ∧ (∀ i, (i < j)%nat → Os.path_exists (fs w) (cand i) = true)
    ∧ (j ≤ size (fs w))%nat
    ∧ (∀ p, (0 < j)%nat → Os.locate (fs w) (cand j) = Some p →
            (j ≤ size (dir_entries (fs w) (removelast p)))%nat)
    ∧ ∀ fuel, (size (fs w) < fuel)%nat →
        unique_filepath fuel new_folder_path file_name
          (file_name +:+ extension) 1
          (Os.path_join new_folder_path (file_name +:+ extension)) w
        = (Ok (nm j, S j, cand j), w).
Proof.
  assert (∀ fuel, (size (fs w) < fuel)%nat →
            ∃ j, unique_filepath fuel new_folder_path file_name
                   (file_name +:+ extension) 1
                   (Os.path_join new_folder_path (file_name +:+ extension)) w
                 = (Ok (nm j, S j, cand j), w)
                 ∧ Os.path_exists (fs w) (cand j) = false
                 ∧ ∀ i, (i < j)%nat → Os.path_exists (fs w) (cand i) = true)
    as Hrun.
  { intros fuel Hfuel.
    pose proof (unique_filepath_spec fuel 0 w) as Hloop.
    change (file_name +:+ suffix extension 0)
      with (file_name +:+ extension) in Hloop.
    change (cand 0%nat)
      with (Os.path_join new_folder_path (file_name +:+ extension)) in Hloop.
    destruct (unique_filepath _ _ _ _ _ _ w) as [[[[o n] p]|e|] w1]; [|done|].
    - destruct Hloop as (-> & j & -> & -> & -> & Hfree & Hused).
      cbn [Nat.add] in *. by exists j.
    - destruct Hloop as (-> & Hused).
      destruct (used_names_bound (fs w) fuel Hused) as [Hsize _]. lia. }
  destruct (Hrun (S (size (fs w))) ltac:(lia)) as (j & _ & Hfree & Hused).
  exists j. destruct (used_names_bound (fs w) j Hused) as [Hsize Hdir].
  repeat split; try done.
  - intros p Hj Hp. by apply (Hdir j).
  - intros fuel Hfuel.
    destruct (Hrun fuel Hfuel) as (j' & Heq & Hfree' & Hused').
    assert (j' = j) as ->; [|done].
    destruct (Nat.lt_trichotomy j' j) as [Hlt|[->|Hlt]]; [|done|].
    + by rewrite (Hused j' Hlt) in Hfree'.
    + by rewrite (Hused' j Hlt) in Hfree.
Qed.

End UniqueFilepath.

(** ** Creating directories *)

Section Makedirs.

Implicit Types (f : gmap path node) (cur p : path) (l : list string).

Lemma lookup_node_mono f f' p (n : node) :
  f ⊆ f' → p ≠ [] →
  Os.lookup_node f p = Some n → Os.lookup_node f' p = Some n.
Proof.
  intros Hsub. destruct p; [done|]. cbn. intros _ H. by eapply lookup_weaken.
Qed.

Lemma is_dir_mono f f' p :
  f ⊆ f' → Os.is_dir f p = true → Os.is_dir f' p = true.
Proof.
  intros Hsub. destruct (decide (p = [])) as [->|Hp]; [done|].
  unfold Os.is_dir.
  destruct (Os.lookup_node f p) as [n|] eqn:Hn; [|done].
  rewrite (lookup_node_mono _ _ _ _ Hsub Hp Hn). done.
Qed.

Lemma walk_mono f f' cur l p :
  f ⊆ f' → Os.walk f cur l = Some p → Os.walk f' cur l = Some p.
Proof.
  intros Hsub. revert cur. induction l as [|c l IH]; intros cur; [done|].
  cbn. destruct (Os.is_dir f cur) eqn:Hd; [|done].
  rewrite (is_dir_mono _ _ _ Hsub Hd).
  repeat case_bool_decide; apply IH.
Qed.

Lemma locate_mono f f' (name : string) p :
  f ⊆ f' → Os.locate f name = Some p → Os.locate f' name = Some p.
Proof.
  intros Hsub. unfold Os.locate. case_bool_decide; [done|].
  by apply walk_mono.
Qed.

(** What exists keeps existing when entries are only added. *)
Lemma path_exists_mono f f' (name : string) :
  f ⊆ f' → Os.path_exists f name = true → Os.path_exists f' name = true.
Proof.
  intros Hsub. unfold Os.path_exists.
  destruct (Os.locate f name) as [p|] eqn:Hp; [|done].
  rewrite (locate_mono _ _ _ _ Hsub Hp).
  intros [n Hn]%bool_decide_eq_true. apply bool_decide_eq_true.
  destruct (decide (p = [])) as [->|Hne]; [by eexists|].
  exists n. by eapply lookup_node_mono.
Qed.

Lemma makedirs_walk_subseteq f cur l (e : option errno) f' :
  Os.makedirs_walk f cur l = (e, f') → f ⊆ f'.
Proof.
  revert f cur. induction l as [|c l IH]; intros f cur; cbn.
  - by intros [= _ <-].
  - repeat case_bool_decide; [by apply IH..|].
    rewrite lookup_node_snoc.
    destruct (f !! (cur ++ [c])) as [[wr|rows]|] eqn:Hp.
    + by apply IH.
    + by intros [= _ <-].
    + destruct (Os.is_writable_dir f cur); [|by intros [= _ <-]].
      intros Hw%IH. etrans; [|exact Hw]. by apply insert_subseteq.
Qed.

(** [os.makedirs] makes directories only: every regular file there is
    afterwards was there before, with the same rows. *)
Lemma makedirs_walk_files f cur l (e : option errno) f' p (rows : list row) :
  Os.makedirs_walk f cur l = (e, f') →
  f' !! p = Some (File rows) → f !! p = Some (File rows).
Proof.
  revert f cur. induction l as [|c l IH]; intros f cur; cbn.
  - by intros [= _ <-].
  - repeat case_bool_decide; [by apply IH..|].
    rewrite lookup_node_snoc.
    destruct (f !! (cur ++ [c])) as [[wr|rows']|] eqn:Hp.
    + by apply IH.
    + by intros [= _ <-].
    + destruct (Os.is_writable_dir f cur); [|by intros [= _ <-]].
      intros Hw Hf. specialize (IH _ _ Hw Hf).
      rewrite lookup_insert in IH. case_decide; [done|]. done.
Qed.

Lemma reachable_nil f : reachable f [].
Proof. intros k. by rewrite take_nil. Qed.

Lemma reachable_self f cur : reachable f cur → Os.is_dir f cur = true.
Proof. intros H. specialize (H (length cur)). by rewrite take_ge in H. Qed.

Lemma reachable_removelast f cur : reachable f cur → reachable f (removelast cur).
Proof.
  intros H k. destruct cur as [|c cur _] using rev_ind; [apply H|].
  rewrite removelast_last.
  destruct (decide (k ≤ length cur)%nat).
  - specialize (H k). by rewrite take_app_le in H.
  - rewrite take_ge by lia. specialize (H (length cur)).
    by rewrite take_app_le, take_ge in H.
Qed.

Lemma reachable_snoc f cur (c : string) :
  reachable f cur → Os.is_dir f (cur ++ [c]) = true → reachable f (cur ++ [c]).
Proof.
  intros H Hd k. destruct (decide (k ≤ length cur)%nat).
  - rewrite take_app_le by done. apply H.
  - rewrite take_ge; [done|]. rewrite length_app. cbn. lia.
Qed.

Lemma reachable_mono f f' cur : f ⊆ f' → reachable f cur → reachable f' cur.
Proof. intros Hsub H k. by eapply is_dir_mono. Qed.

(** When the creating walk succeeds, the same walk afterwards arrives
    at a directory. *)
Lemma makedirs_walk_ok f cur l f' :
  reachable f cur →
  Os.makedirs_walk f cur l = (None, f') →
  ∃ p, Os.walk f' cur l = Some p ∧ reachable f' p.
Proof.
  revert f cur. induction l as [|c l IH]; intros f cur Hr; cbn.
  - intros [= <-]. by exists cur.
  - intros H. pose proof (makedirs_walk_subseteq _ _ (c :: l) _ _ H) as Hsub.
    cbn in H.
    rewrite (is_dir_mono _ _ _ Hsub (reachable_self _ _ Hr)).
    repeat case_bool_decide.
    + by apply (IH f).
    + apply (IH f); [by apply reachable_removelast|done].
    + rewrite lookup_node_snoc in H.
      destruct (f !! (cur ++ [c])) as [[wr|rows]|] eqn:Hp.
      * apply (IH f); [|done]. apply reachable_snoc; [done|].
        unfold Os.is_dir. by rewrite lookup_node_snoc, Hp.
      * done.
      * destruct (Os.is_writable_dir f cur); [|done].
        apply (IH (<[cur ++ [c] := Dir true]> f)); [|done].
        apply reachable_snoc.
        -- eapply reachable_mono; [|done]. by apply insert_subseteq.
        -- unfold Os.is_dir.
           by rewrite lookup_node_snoc, lookup_insert_eq.
Qed.


End Makedirs.

(** ** [log_file], stage by stage *)

Section LogFile.

Lemma makedirs_fs (name : string) (w : world) :
  fs w ⊆ fs (Os.makedirs name w).2
  ∧ ∀ p rows, fs (Os.makedirs name w).2 !! p = Some (File rows) →
              fs w !! p = Some (File rows).
Proof.
  unfold Os.makedirs. case_bool_decide; [done|].
  destruct (Os.makedirs_walk (fs w) [] (Os.components name))
    as [[errno|] f'] eqn:Hw; cbn; split;
    eauto using makedirs_walk_subseteq, makedirs_walk_files.
Qed.

Lemma makedirs_outcome (name : string) (w : world) :
  match (Os.makedirs name w).1 with
  | Ok _ => ∃ p, Os.locate (fs (Os.makedirs name w).2) name = Some p
                 ∧ Os.is_dir (fs (Os.makedirs name w).2) p = true
  | Raise e => is_OSError e = true
  | OutOfFuel => False
  end.
Proof.
  unfold Os.makedirs, Os.locate. case_bool_decide; [done|].
  destruct (Os.makedirs_walk (fs w) [] (Os.components name))
    as [[errno|] f'] eqn:Hw; cbn; [done|].
  destruct (makedirs_walk_ok _ _ _ _ (reachable_nil _) Hw) as (p & Hp & Hr).
  exists p. split; [done|]. by apply reachable_self.
Qed.

(** The guarded creation of the [log_files] folder returns whatever
    happens, having at most added directories and a diagnostic. *)
Lemma guarded_makedirs (new_folder_path : string) (w : world) :
  ∃ w2,
    try_except (Os.makedirs new_folder_path)
      (λ e, if is_OSError e
            then print ("Error creating folder " +:+ new_folder_path
                          +:+ ": " +:+ str_exn e)
            else raise e) w = (Ok tt, w2)
    ∧ fs w2 = fs (Os.makedirs new_folder_path w).2.
Proof.
  unfold try_except.
  pose proof (makedirs_outcome new_folder_path w) as Hout.
  destruct (Os.makedirs new_folder_path w) as [[[]|e|] w1]; cbn in *.
  - by exists w1.
  - rewrite Hout. eexists. split; [reflexivity|done].
  - done.
Qed.

(** A call that returns: the extension was accepted, [dir] was made, and
    in the file system the two [os.makedirs] calls left the loop stopped
    at the first name not in use, which was then created with the
    header. *)
Lemma log_file_returns_probed (fuel : nat) (outfile dir : string)
    (w w' : world) (p : string) :
  log_file fuel outfile dir w = (Ok p, w') →
  ∃ (file_name extension : string) (j : nat) (q : path),
    Os.path_splitext outfile = (file_name, extension)
    ∧ PyStr.lower extension = ".csv"
    ∧ (Os.makedirs dir w).1 = Ok tt
    ∧ fs w ⊆ probed dir w
    ∧ (∀ q0 rows, probed dir w !! q0 = Some (File rows) →
                  fs w !! q0 = Some (File rows))
    ∧ p = candidate (Os.path_join dir "log_files") file_name extension j
    ∧ Os.path_exists (probed dir w) p = false
    ∧ (∀ i, (i < j)%nat →
            Os.path_exists (probed dir w)
              (candidate (Os.path_join dir "log_files") file_name extension i)
            = true)
    ∧ Os.locate (probed dir w) p = Some q
    ∧ probed dir w !! q = None
    ∧ fs w' = <[q := File [CStr <$> header]]> (probed dir w).
Proof.
  unfold probed, log_file, bind.
  pose proof (makedirs_fs dir w) as [Hsub1 Hfiles1].
  destruct (Os.makedirs dir w) as [[[]|e|] w1]; [|done..].
  cbn [fst snd] in *.
  destruct (Os.path_splitext outfile) as [file_name extension] eqn:Hsplit.
  case_bool_decide as Hext; [done|].
  destruct (guarded_makedirs (Os.path_join dir "log_files") w1)
    as (w2 & -> & Hfs2).
  pose proof (makedirs_fs (Os.path_join dir "log_files") w1)
    as [Hsub2 Hfiles2].
  rewrite <-Hfs2 in Hsub2, Hfiles2. rewrite <-Hfs2.
  pose proof (unique_filepath_spec (Os.path_join dir "log_files")
                file_name extension fuel 0 w2) as Hloop.
  rewrite <-(path_splitext_app _ _ _ Hsplit) at 1 2.
  change (Os.path_join (Os.path_join dir "log_files") (file_name +:+ extension))
    with (candidate (Os.path_join dir "log_files") file_name extension 0).
  change (file_name +:+ extension) with (file_name +:+ suffix extension 0) at 1.
  destruct (unique_filepath _ _ _ _ _ _ w2) as [[[[o n] p']|e|] w3]; [|done..].
  destruct Hloop as (-> & j & -> & -> & -> & Hfree & Hused).
  cbn [Nat.add] in *.
  unfold Os.open_append, Os.path_exists in *.
  destruct (Os.locate (fs w2) _) as [q|] eqn:Hq; [|done].
  apply bool_decide_eq_false in Hfree.
  destruct (Os.lookup_node (fs w2) q) as [nd|] eqn:Hnode.
  { destruct Hfree. by exists nd. }
  destruct (Os.is_writable_dir (fs w2) (removelast q)); [|done].
  assert (fs w2 !! q = None) as Hnone.
  { destruct q; [done|]. done. }
  unfold Os.writerow. cbn. rewrite lookup_insert_eq. cbn.
  intros [= <- <-]. cbn. rewrite insert_insert_eq.
  exists file_name, extension, j, q.
  repeat split; try done.
  - etrans; [exact Hsub1|exact Hsub2].
  - eauto.
  - rewrite Hq, Hnode. by apply bool_decide_eq_false.
Qed.

Lemma log_file_returns (fuel : nat) (outfile dir : string)
    (w w' : world) (p : string) :
  log_file fuel outfile dir w = (Ok p, w') →
  ∃ (file_name extension : string) (w2 : world) (j : nat) (q : path),
    Os.path_splitext outfile = (file_name, extension)
    ∧ PyStr.lower extension = ".csv"
    ∧ (Os.makedirs dir w).1 = Ok tt
    ∧ fs w ⊆ fs w2
    ∧ p = candidate (Os.path_join dir "log_files") file_name extension j
    ∧ Os.path_exists (fs w2) p = false
    ∧ (∀ i, (i < j)%nat →
            Os.path_exists (fs w2)
              (candidate (Os.path_join dir "log_files") file_name extension i)
            = true)
    ∧ Os.locate (fs w2) p = Some q
    ∧ fs w2 !! q = None
    ∧ fs w' = <[q := File [CStr <$> header]]> (fs w2).
Proof.
  intros H.
  destruct (log_file_returns_probed _ _ _ _ _ _ H)
    as (file_name & extension & j & q & H1 & H2 & H3 & H4 & _ & H5 & H6
        & H7 & H8 & H9 & H10).
  by exists file_name, extension, (set_fs (probed dir w) w), j, q.
Qed.

(** [log_file] always comes to an end: from some amount of fuel on, the
    outcome is the same and is a return or an exception. *)
Lemma log_file_enough_fuel (outfile dir : string) (w : world) :
  ∃ fuel0 : nat, ∀ fuel, (fuel0 ≤ fuel)%nat →
    log_file fuel outfile dir w = log_file fuel0 outfile dir w
    ∧ (log_file fuel outfile dir w).1 ≠ OutOfFuel.
Proof.
  unfold log_file, bind.
  pose proof (makedirs_outcome dir w) as Hout.
  destruct (Os.makedirs dir w) as [[[]|e|] w1]; cbn [fst] in Hout;
    [|by exists 0%nat..].
  destruct (Os.path_splitext outfile) as [file_name extension] eqn:Hsplit.
  case_bool_decide as Hext; [by exists 0%nat|].
  destruct (guarded_makedirs (Os.path_join dir "log_files") w1)
    as (w2 & -> & _).
  destruct (unique_filepath_stops (Os.path_join dir "log_files")
              file_name extension Hext w2) as (j & _ & _ & _ & _ & Hrun).
  rewrite (path_splitext_app _ _ _ Hsplit) in Hrun.
  exists (S (size (fs w2))). intros fuel Hfuel.
  rewrite (Hrun fuel) by lia. rewrite (Hrun (S (size (fs w2)))) by lia.
  split; [done|].
  unfold Os.open_append, Os.writerow. by repeat case_match.
Qed.







End LogFile.

(** ** Properties of [log_file] *)

(** C3. In every directory state [log_file] comes to an end, and
    whenever it returns a path, nothing existed under that path before the
    call. The path is determined by the state the loop probes, the file
    system as the two [os.makedirs] calls leave it (the one before the
    call plus, at most, new directories): in the fixed sequence [outfile],
    [file_name_1.csv], [file_name_2.csv], ... inside [dir/log_files] it is
    the first name not in use there, every earlier name being in use and
    no later choice being possible. Three successive calls with the
    default arguments return [pzem_logs.csv], [pzem_logs_1.csv] and
    [pzem_logs_2.csv]. *)
Theorem log_file_never_picks_existing (outfile dir : string) (w : world) :
  (∃ fuel0 : nat, ∀ fuel, (fuel0 ≤ fuel)%nat →
     log_file fuel outfile dir w = log_file fuel0 outfile dir w
     ∧ (log_file fuel outfile dir w).1 ≠ OutOfFuel)
  ∧ (∀ (fuel : nat) (p : string) (w' : world),
       log_file fuel outfile dir w = (Ok p, w') →
       Os.path_exists (fs w) p = false
       ∧ fs w ⊆ probed dir w
       ∧ (∀ q rows, probed dir w !! q = Some (File rows) →
                    fs w !! q = Some (File rows))
       ∧ ∃ j : nat,
           p = candidate (Os.path_join dir "log_files")
                 (Os.path_splitext outfile).1 (Os.path_splitext outfile).2 j
           ∧ candidate (Os.path_join dir "log_files")
               (Os.path_splitext outfile).1 (Os.path_splitext outfile).2 0
             = Os.path_join (Os.path_join dir "log_files") outfile
           ∧ Os.path_exists (probed dir w) p = false
           ∧ (∀ i, (i < j)%nat →
                   Os.path_exists (probed dir w)
                     (candidate (Os.path_join dir "log_files")
                        (Os.path_splitext outfile).1
                        (Os.path_splitext outfile).2 i) = true)
           ∧ (∀ k, Os.path_exists (probed dir w)
                     (candidate (Os.path_join dir "log_files")
                        (Os.path_splitext outfile).1
                        (Os.path_splitext outfile).2 k) = false →
                   (j ≤ k)%nat))
  ∧ (log_file 1 "pzem_logs.csv" "./" (fresh_world steady_device never)).1
    = Ok "./log_files/pzem_logs.csv"
  ∧ (log_file 2 "pzem_logs.csv" "./" after_one_run).1
    = Ok "./log_files/pzem_logs_1.csv"
  ∧ (log_file 3 "pzem_logs.csv" "./" after_two_runs).1
    = Ok "./log_files/pzem_logs_2.csv".
Proof.
  split; [apply log_file_enough_fuel|].
  split; [|by vm_compute].
  intros fuel p w' H.
  destruct (log_file_returns_probed _ _ _ _ _ _ H)
    as (file_name & extension & j & q & Hsplit & Hext & _ & Hsub & Hfiles
        & -> & Hfree & Hused & _).
  rewrite Hsplit. cbn [fst snd]. split; [|split; [done|split; [done|]]].
  - destruct (Os.path_exists (fs w) _) eqn:Hex; [|done].
    by rewrite (path_exists_mono _ _ _ Hsub Hex) in Hfree.
  - exists j. repeat split; try done.
    + unfold candidate. cbn [suffix].
      by rewrite (path_splitext_app _ _ _ Hsplit).
    + intros k Hk. destruct (decide (j ≤ k)%nat) as [|Hlt]; [done|].
      rewrite Hused in Hk by lia. done.
Qed.

Lemma log_file_never_picks_existing_witness :
  Os.path_exists (fs after_one_run) "./log_files/pzem_logs_1.csv" = false.
Proof.
  exact (proj1 (proj1 (proj2 (log_file_never_picks_existing
                                "pzem_logs.csv" "./" after_one_run))
                  2%nat "./log_files/pzem_logs_1.csv" after_two_runs
                  ltac:(vm_compute; reflexivity))).
Defined.

(** C10. The collision-avoidance loop, entered as [log_file] enters it
    (extension [.csv] up to case, counter 1, first name [outfile]),
    terminates in every directory state: the names it tries are pairwise
    distinct, it stops at the first of them not in use with the counter
    one more than the number of names skipped, and it skips no more names
    than there are entries in the file system, indeed in the directory
    the names live in. Fuel beyond the number of entries is enough. *)
Theorem unique_filepath_terminates (fuel : nat)
    (new_folder_path file_name extension : string) (w : world) :
  PyStr.lower extension = ".csv" →
  (size (fs w) < fuel)%nat →
  (∀ j k, candidate new_folder_path file_name extension j
          = candidate new_folder_path file_name extension k → j = k)
  ∧ ∃ j : nat,
      unique_filepath fuel new_folder_path file_name
        (file_name +:+ extension) 1
        (Os.path_join new_folder_path (file_name +:+ extension)) w
      = (Ok (file_name +:+ suffix extension j, S j,
             candidate new_folder_path file_name extension j), w)
      ∧ Os.path_exists (fs w)
          (candidate new_folder_path file_name extension j) = false
      ∧ (∀ i, (i < j)%nat →
              Os.path_exists (fs w)
                (candidate new_folder_path file_name extension i) = true)
      ∧ (j ≤ size (fs w))%nat
      ∧ ∀ p, (0 < j)%nat →
             Os.locate (fs w) (candidate new_folder_path file_name extension j)
             = Some p →
             (j ≤ size (dir_entries (fs w) (removelast p)))%nat.
Proof.
  intros Hext Hfuel. split; [intros j k; by apply candidate_inj|].
  destruct (unique_filepath_stops new_folder_path file_name extension Hext w)
    as (j & Hfree & Hused & Hsize & Hdir & Hrun).
  exists j. by rewrite (Hrun fuel Hfuel).
Qed.

Lemma unique_filepath_terminates_witness :
  ∃ j : nat,
    unique_filepath 4 "./log_files" "pzem_logs" ("pzem_logs" +:+ ".csv") 1
      (Os.path_join "./log_files" ("pzem_logs" +:+ ".csv")) after_two_runs
    = (Ok ("pzem_logs" +:+ suffix ".csv" j, S j,
           candidate "./log_files" "pzem_logs" ".csv" j), after_two_runs)
    ∧ Os.path_exists (fs after_two_runs)
        (candidate "./log_files" "pzem_logs" ".csv" j) = false
    ∧ (∀ i, (i < j)%nat →
            Os.path_exists (fs after_two_runs)
              (candidate "./log_files" "pzem_logs" ".csv" i) = true)
    ∧ (j ≤ size (fs after_two_runs))%nat
    ∧ ∀ p, (0 < j)%nat →
           Os.locate (fs after_two_runs)
             (candidate "./log_files" "pzem_logs" ".csv" j) = Some p →
           (j ≤ size (dir_entries (fs after_two_runs) (removelast p)))%nat.
Proof.
  exact (proj2 (unique_filepath_terminates 4 "./log_files" "pzem_logs" ".csv"
                  after_two_runs eq_refl ltac:(vm_compute; lia))).
Defined.

Example two_names_skipped :
  unique_filepath 4 "./log_files" "pzem_logs" "pzem_logs.csv" 1
    "./log_files/pzem_logs.csv" after_two_runs
  = (Ok ("pzem_logs_2.csv", 3%nat, "./log_files/pzem_logs_2.csv"),
     after_two_runs)
  ∧ size (dir_entries (fs after_two_runs) ["log_files"]) = 2%nat.
Proof. split; vm_compute; reflexivity. Qed.

(** C5 as stated fails: when [dir] cannot be created, the call fails
    with that [OSError] before the extension is looked at. *)
Lemma bad_extension_but_OSError :
  PyStr.lower (Os.path_splitext "data.txt").2 ≠ ".csv"
  ∧ (log_file 1 "data.txt" "blocked" (with_regular_file "blocked")).1
    = Raise (OSError EEXIST "blocked")
  ∧ ∀ msg, (log_file 1 "data.txt" "blocked" (with_regular_file "blocked")).1
           ≠ Raise (ValueError msg).
Proof. split; [by vm_compute|]. split; [by vm_compute|]. intros msg. by vm_compute. Qed.

(** C5, amended. For an [outfile] whose extension is not [.csv] up to
    case, [log_file] never returns a path and leaves no regular file that
    was not there before; it raises [ValueError] whenever the creation of
    [dir] that precedes the check succeeds, and otherwise the error of
    that creation. In the working directory, [data.txt] is refused with
    [ValueError]. *)
Theorem bad_extension_is_rejected (fuel : nat) (outfile dir : string)
    (w : world) :
  PyStr.lower (Os.path_splitext outfile).2 ≠ ".csv" →
  ((Os.makedirs dir w).1 = Ok tt →
   (log_file fuel outfile dir w).1
   = Raise (ValueError ("Outfile must be a .csv file, got '" +:+ outfile
                          +:+ "' instead.")))
  ∧ (∀ e, (Os.makedirs dir w).1 = Raise e →
          (log_file fuel outfile dir w).1 = Raise e)
  ∧ (∀ p, (log_file fuel outfile dir w).1 ≠ Ok p)
  ∧ (∀ q rows, fs (log_file fuel outfile dir w).2 !! q = Some (File rows) →
               fs w !! q = Some (File rows))
  ∧ (log_file fuel "data.txt" "./" (fresh_world steady_device never)).1
    = Raise (ValueError "Outfile must be a .csv file, got 'data.txt' instead.").
Proof.
  intros Hext.
  cut (∀ r : result string * world, r = log_file fuel outfile dir w →
         ((Os.makedirs dir w).1 = Ok tt →
          r.1 = Raise (ValueError ("Outfile must be a .csv file, got '"
                                     +:+ outfile +:+ "' instead.")))
         ∧ (∀ e, (Os.makedirs dir w).1 = Raise e → r.1 = Raise e)
         ∧ (∀ p, r.1 ≠ Ok p)
         ∧ (∀ q rows, fs r.2 !! q = Some (File rows) →
                      fs w !! q = Some (File rows))).
  { intros Hcut. destruct (Hcut _ eq_refl) as (H1 & H2 & H3 & H4).
    repeat split; try done. }
  intros r ->.
  pose proof (makedirs_fs dir w) as [_ Hfiles].
  pose proof (makedirs_outcome dir w) as Hout.
  unfold log_file, bind.
  destruct (Os.makedirs dir w) as [[[]|e|] w1]; cbn [fst snd] in *; [| |done].
  - destruct (Os.path_splitext outfile) as [file_name extension].
    cbn [snd] in Hext. rewrite bool_decide_true by done. cbn.
    repeat split; try done.
  - repeat split; try done. by intros e' [= <-].
Qed.

Lemma bad_extension_is_rejected_witness :
  (log_file 1 "notes.TXT" "archive" (fresh_world steady_device never)).1
  = Raise (ValueError "Outfile must be a .csv file, got 'notes.TXT' instead.").
Proof.
  exact (proj1 (bad_extension_is_rejected 1 "notes.TXT" "archive"
                  (fresh_world steady_device never)
                  ltac:(by vm_compute))
               ltac:(vm_compute; reflexivity)).
Defined.

(** C6. Whenever [log_file] returns a path, that path names a regular
    file that did not exist before the call and now holds exactly one
    record, the header; its text, and so the first line of the file, is
    the fixed header line, byte for byte. *)
Theorem header_is_first_line (fuel : nat) (outfile dir : string)
    (w w' : world) (p : string) :
  log_file fuel outfile dir w = (Ok p, w') →
  ∃ (q : path) (first : row),
    Os.locate (fs w') p = Some q
    ∧ fs w !! q = None
    ∧ rows_at w' q = Some [first]
    ∧ Csv.row_text first = Some header_line.
Proof.
  intros H.
  destruct (log_file_returns _ _ _ _ _ _ H)
    as (file_name & extension & w2 & j & q & _ & _ & _ & Hsub
        & _ & _ & _ & Hq & Hnone & Hfs).
  exists q, (CStr <$> header). repeat split.
  - rewrite Hfs. eapply locate_mono; [|done]. by apply insert_subseteq.
  - destruct (fs w !! q) as [nd|] eqn:Hw; [|done].
    by rewrite (lookup_weaken _ _ _ _ Hw Hsub) in Hnone.
  - unfold rows_at. by rewrite Hfs, lookup_insert_eq.
Qed.

Lemma header_is_first_line_witness :
  ∃ (q : path) (first : row),
    Os.locate (fs after_two_runs) "./log_files/pzem_logs_1.csv" = Some q
    ∧ fs after_one_run !! q = None
    ∧ rows_at after_two_runs q = Some [first]
    ∧ Csv.row_text first = Some header_line.
Proof.
  exact (header_is_first_line 2 "pzem_logs.csv" "./"
           after_one_run after_two_runs "./log_files/pzem_logs_1.csv"
           ltac:(vm_compute; reflexivity)).
Defined.

(** C9. Whenever [log_file] raises [ValueError], it is the extension
    check that failed, the world is the one the preceding
    [os.makedirs(dir)] left, and in it [dir] leads to a directory. A
    refused call in an empty working directory leaves the directories of
    [dir] behind. *)
Theorem directory_exists_after_ValueError (fuel : nat) (outfile dir msg : string)
    (w w' : world) :
  log_file fuel outfile dir w = (Raise (ValueError msg), w') →
  PyStr.lower (Os.path_splitext outfile).2 ≠ ".csv"
  ∧ Os.makedirs dir w = (Ok tt, w')
  ∧ (∃ p, Os.locate (fs w') dir = Some p ∧ Os.is_dir (fs w') p = true)
  ∧ Os.path_exists (fs (fresh_world steady_device never)) "archive/2024" = false
  ∧ Os.path_exists
      (fs (log_file fuel "notes.txt" "archive/2024"
             (fresh_world steady_device never)).2) "archive/2024" = true.
Proof.
  intros H.
  cut (PyStr.lower (Os.path_splitext outfile).2 ≠ ".csv"
       ∧ Os.makedirs dir w = (Ok tt, w')
       ∧ (∃ p, Os.locate (fs w') dir = Some p ∧ Os.is_dir (fs w') p = true)).
  { intros (H1 & H2 & H3). repeat split; try done. }
  revert H. unfold log_file, bind.
  pose proof (makedirs_outcome dir w) as Hout.
  destruct (Os.makedirs dir w) as [[[]|e|] w1]; cbn [fst snd] in *.
  - destruct (Os.path_splitext outfile) as [file_name extension] eqn:Hsplit.
    case_bool_decide as Hext.
    + intros [= <- <-]. done.
    + destruct (guarded_makedirs (Os.path_join dir "log_files") w1)
        as (w2 & -> & _).
      pose proof (unique_filepath_spec (Os.path_join dir "log_files")
                    file_name extension fuel 0 w2) as Hloop.
      rewrite <-(path_splitext_app _ _ _ Hsplit) at 1 2.
      change (Os.path_join (Os.path_join dir "log_files")
                (file_name +:+ extension))
        with (candidate (Os.path_join dir "log_files") file_name extension 0).
      change (file_name +:+ extension)
        with (file_name +:+ suffix extension 0) at 1.
      destruct (unique_filepath _ _ _ _ _ _ w2) as [[[[o n] p']|e|] w3];
        [|done..].
      unfold Os.open_append, Os.writerow.
      repeat case_match; cbn; intros [= ]; simplify_eq.
  - intros [= -> <-]. done.
  - done.
Qed.

Lemma directory_exists_after_ValueError_witness :
  ∃ p, Os.locate
         (fs (log_file 1 "notes.txt" "archive/2024"
                (fresh_world steady_device never)).2) "archive/2024" = Some p
       ∧ Os.is_dir
           (fs (log_file 1 "notes.txt" "archive/2024"
                  (fresh_world steady_device never)).2) p = true.
Proof.
  exact (proj1 (proj2 (proj2
           (directory_exists_after_ValueError 1 "notes.txt" "archive/2024"
              "Outfile must be a .csv file, got 'notes.txt' instead."
              (fresh_world steady_device never)
              (log_file 1 "notes.txt" "archive/2024"
                 (fresh_world steady_device never)).2
              ltac:(vm_compute; reflexivity))))).
Defined.



(** In a read-only working directory without the folder, the default
    call prints the permission error of [os.makedirs] and fails at
    [open] with the missing folder; nothing is created. *)
Example read_only_cwd_default :
  let r := log_file 1 "pzem_logs.csv" "./" read_only_cwd in
  r.1 = Raise (OSError ENOENT "./log_files/pzem_logs.csv")
  ∧ stdout r.2
    = ["Error creating folder ./log_files: [Errno 13] Permission denied: './log_files'"]
  ∧ fs r.2 = fs read_only_cwd.
Proof. repeat split; vm_compute; reflexivity. Qed.

(** Without the adapter, [init] raises and [main] ends there: no port
    is open, no folder or file is made and nothing is printed. *)
Example main_without_adapter (fuel : nat) :
  main fuel without_adapter
  = (Raise (TransportError "SerialException"), without_adapter).
Proof. reflexivity. Qed.

(** * Further properties

    ** One poll cycle: the generator of [read_pzem_data] *)

Lemma answers_reads_return (w : world) (regs : nat → Z → Z) :
  answers w regs →
  reads_return w [regs (reads_done w) 0; regs (1 + reads_done w)%nat 1;
                  regs (2 + reads_done w)%nat 2; regs (3 + reads_done w)%nat 3;
                  regs (4 + reads_done w)%nat 4; regs (5 + reads_done w)%nat 5;
                  regs (6 + reads_done w)%nat 6; regs (7 + reads_done w)%nat 7].
Proof.
  intros H j v Hj. rewrite H.
  do 8 (destruct j as [|j]; [by inversion Hj|]). inversion Hj.
Qed.

(** How the generator body can end: with a row, or with the
    [UnboundLocalError] of its [finally] clause; it touches nothing but
    the transport, the clock and standard output. *)
Lemma read_pzem_data_body_outcome (i : instrument) (w : world) :
  match (read_pzem_data_body i w).1 with
  | Ok _ => True
  | Raise e => ∃ c, e = UnboundLocalError "row_data" c
  | OutOfFuel => False
  end
  ∧ fs (read_pzem_data_body i w).2 = fs w
  ∧ generators (read_pzem_data_body i w).2 = generators w
  ∧ sigint (read_pzem_data_body i w).2 = sigint w
  ∧ serial_open (read_pzem_data_body i w).2 = serial_open w
  ∧ ticks (read_pzem_data_body i w).2 = ticks w.
Proof.
  unfold read_pzem_data_body, try_except, read_pzem_data_try,
    read_register_decimals, read_register, read_raw, strftime, bind, ret.
  repeat (cbn [device reads_done set_reads_done fst snd];
          match goal with
          | |- context [device w ?k ?a] =>
              destruct (device w k a) as [[]|]
          end).
  all: cbn; eauto 10.
Qed.

Lemma gen_next_outcome (i : instrument) (g : nat) (w : world) :
  match (gen_next i g w).1 with
  | Ok (Some _) => generators (gen_next i g w).2 !! g = Some GenSuspended
  | Ok None =>
      generators (gen_next i g w).2 !! g = Some GenFinished
      ∨ generators (gen_next i g w).2 !! g = None
  | Raise e => ∃ c, e = UnboundLocalError "row_data" c
  | OutOfFuel => False
  end
  ∧ fs (gen_next i g w).2 = fs w
  ∧ sigint (gen_next i g w).2 = sigint w
  ∧ ticks (gen_next i g w).2 = ticks w.
Proof.
  unfold gen_next.
  destruct (generators w !! g) as [[| |]|] eqn:Hg.
  - assert (g < length (generators w))%nat as Hlen by (by eapply lookup_lt_Some).
    pose proof (read_pzem_data_body_outcome i w)
      as (Hres & Hfs & Hgen & Hs & _ & Ht).
    destruct (read_pzem_data_body i w) as [[r|e|] w1]; cbn in *; [|done..].
    rewrite Hgen, list_lookup_insert_eq by done. done.
  - cbn. split; [|done]. left. apply list_lookup_insert_eq.
    by eapply lookup_lt_Some.
  - cbn. eauto.
  - cbn. eauto.
Qed.

(** X1. The generator protocol of [read_pzem_data]. On a device that
    answers, the first [next] of a fresh generator makes exactly eight
    register reads and yields the decoded row; every later [next] ends
    the iteration at once, reading neither the device nor the clock; the
    file system and standard output are never touched. *)
Theorem generator_yields_once (i : instrument) (g : nat)
    (regs : nat → Z → Z) (w : world) :
  generators w !! g = Some GenCreated →
  answers w regs →
  ∃ w1 w2,
    gen_next i g w
    = (Ok (Some (reading_of regs (reads_done w) (clock w (clock_reads w)))), w1)
    ∧ reads_done w1 = (8 + reads_done w)%nat
    ∧ gen_next i g w1 = (Ok None, w2)
    ∧ gen_next i g w2 = (Ok None, w2)
    ∧ reads_done w2 = reads_done w1
    ∧ clock_reads w2 = clock_reads w1
    ∧ fs w2 = fs w
    ∧ stdout w2 = stdout w.
Proof.
  intros Hg Hans.
  assert (g < length (generators w))%nat as Hlen by (by eapply lookup_lt_Some).
  do 2 eexists. split; [|split; [|split; [|split]]].
  - unfold gen_next. rewrite Hg.
    unfold read_pzem_data_body, try_except, bind.
    rewrite (read_pzem_data_try_returns i w _ _ _ _ _ _ _ _
               (answers_reads_return w regs Hans)).
    reflexivity.
  - reflexivity.
  - unfold gen_next. cbn [generators set_gen modify snd set_generators].
    rewrite list_lookup_insert_eq by done. reflexivity.
  - unfold gen_next. cbn [generators set_gen modify snd set_generators].
    rewrite list_lookup_insert_eq by (by rewrite length_insert). reflexivity.
  - done.
Qed.

Lemma generator_yields_once_witness :
  ∃ w1 w2, gen_next pzem 0 first_generator = (Ok (Some sample_row), w1)
           ∧ reads_done w1 = 8%nat
           ∧ gen_next pzem 0 w1 = (Ok None, w2)
           ∧ gen_next pzem 0 w2 = (Ok None, w2).
Proof.
  destruct (generator_yields_once pzem 0 steady_regs first_generator
              ltac:(vm_compute; reflexivity)
              ltac:(intros k a; vm_compute; reflexivity))
    as (w1 & w2 & H1 & H2 & H3 & H4 & _).
  exists w1, w2. split; [rewrite H1; vm_compute; reflexivity|].
  split; [rewrite H2; vm_compute; reflexivity|].
  split; [exact H3|exact H4].
Defined.

Lemma read_raw_raises (w : world) (a : Z) (e : exn) :
  device w (reads_done w) a = inl e →
  read_raw a w = (Raise e, set_reads_done (S (reads_done w)) w).
Proof. intros H. unfold read_raw. by rewrite H. Qed.

Ltac cycle_read Hok Hbad :=
  match goal with
  | |- context [read_raw ?a ?w0] =>
      first
        [ rewrite (read_raw_raises w0 a _ Hbad)
        | rewrite (read_raw_returns w0 a _ (Hok 0%nat ltac:(lia)))
        | rewrite (read_raw_returns w0 a _ (Hok 1%nat ltac:(lia)))
        | rewrite (read_raw_returns w0 a _ (Hok 2%nat ltac:(lia)))
        | rewrite (read_raw_returns w0 a _ (Hok 3%nat ltac:(lia)))
        | rewrite (read_raw_returns w0 a _ (Hok 4%nat ltac:(lia)))
        | rewrite (read_raw_returns w0 a _ (Hok 5%nat ltac:(lia)))
        | rewrite (read_raw_returns w0 a _ (Hok 6%nat ltac:(lia))) ];
      cbv beta iota delta [ret]
  end.

(** X2. The [try] block of [read_pzem_data] stops at the first register
    read that raises: the registers after it are not read, the clock is
    not read, and nothing else has changed when the exception leaves the
    block. *)
Theorem read_stops_at_failure (i : instrument) (w : world) (j : nat)
    (regs : nat → Z) (e : exn) :
  (j < 8)%nat →
  (∀ k, (k < j)%nat →
        device w (k + reads_done w)%nat (Z.of_nat k) = inr (regs k)) →
  device w (j + reads_done w)%nat (Z.of_nat j) = inl e →
  read_pzem_data_try i w
  = (Raise e, set_reads_done (S j + reads_done w) w).
Proof.
  intros Hj Hok Hbad.
  unfold read_pzem_data_try, read_register_decimals, read_register, bind.
  destruct j as [|[|[|[|[|[|[|[|j]]]]]]]]; [..|lia];
    repeat cycle_read Hok Hbad; reflexivity.
Qed.

Lemma read_stops_at_failure_witness :
  read_pzem_data_try pzem
    (fresh_world (failing_at 3 (IllegalRequestError "Illegal data address"))
       never)
  = (Raise (IllegalRequestError "Illegal data address"),
     set_reads_done 4
       (fresh_world (failing_at 3 (IllegalRequestError "Illegal data address"))
          never)).
Proof.
  apply (read_stops_at_failure pzem
           (fresh_world (failing_at 3 (IllegalRequestError "Illegal data address"))
              never)
           3 (λ k, steady_regs k (Z.of_nat k)));
    [lia| |reflexivity].
  intros k Hk. destruct k as [|[|[|k]]]; [reflexivity..|lia].
Defined.

(** ** [write_results] and the generator it is given *)

Lemma write_results_poll (fuel : nat) (i : instrument) (g : nat)
    (filepath : string) (f : path) (rows : list row) (regs : nat → Z → Z)
    (w : world) :
  Os.locate (fs w) filepath = Some f →
  Os.lookup_node (fs w) f = Some (File rows) →
  generators w !! g = Some GenCreated →
  answers w regs →
  sigint w (ticks w) = false →
  write_results (S (S fuel)) i g filepath w
  = (Ok tt, after_poll w g f rows
              (reading_of regs (reads_done w) (clock w (clock_reads w)))).
Proof.
  intros Hloc Hnode Hg Hans Hsig.
  assert (fs w !! f = Some (File rows)) as Hf.
  { destruct f; [done|exact Hnode]. }
  assert (g < length (generators w))%nat as Hlen by (by eapply lookup_lt_Some).
  unfold write_results, bind. unfold Os.open_append. rewrite Hloc, Hnode.
  cbn [write_rows]. unfold bind at 1. unfold gen_next at 1. rewrite Hg.
  unfold read_pzem_data_body, try_except, bind at 1.
  rewrite (read_pzem_data_try_returns i w _ _ _ _ _ _ _ _
             (answers_reads_return w regs Hans)).
  cbn [ret read_pzem_data_finally snd fst set_gen modify].
  unfold bind at 1. unfold checkpoint. cbn [sigint ticks set_generators set_clock_reads set_reads_done].
  rewrite Hsig. unfold bind at 1. unfold Os.writerow.
  cbn [fs set_ticks set_generators set_clock_reads set_reads_done].
  rewrite Hf. unfold bind, gen_next.
  cbn [generators set_fs set_ticks set_generators].
  rewrite list_lookup_insert_eq by done.
  reflexivity.
Qed.

(** X3. [write_results] on a fresh generator, a log that exists, a
    device that answers and no interrupt pending: it returns, having
    appended exactly the decoded row to the log, made eight reads and one
    clock reading, and left the generator finished. Two turns of its
    [for] loop are enough whatever the fuel. *)
Theorem write_results_appends_one_row (fuel : nat) (i : instrument) (g : nat)
    (filepath : string) (f : path) (rows : list row) (regs : nat → Z → Z)
    (w : world) :
  Os.locate (fs w) filepath = Some f →
  Os.lookup_node (fs w) f = Some (File rows) →
  generators w !! g = Some GenCreated →
  answers w regs →
  sigint w (ticks w) = false →
  ∃ w', write_results (S (S fuel)) i g filepath w = (Ok tt, w')
        ∧ rows_at w' f
          = Some (rows ++ [reading_of regs (reads_done w)
                             (clock w (clock_reads w))])
        ∧ (∀ q, q ≠ f → fs w' !! q = fs w !! q)
        ∧ reads_done w' = (8 + reads_done w)%nat
        ∧ clock_reads w' = S (clock_reads w)
        ∧ stdout w' = stdout w
        ∧ generators w' !! g = Some GenFinished.
Proof.
  intros Hloc Hnode Hg Hans Hsig.
  rewrite (write_results_poll fuel i g filepath f rows regs w) by done.
  eexists. split; [reflexivity|].
  unfold rows_at, after_poll.
  cbn [fs reads_done clock_reads stdout generators].
  rewrite lookup_insert_eq. repeat split; try done.
  - intros q Hq. by rewrite lookup_insert_ne.
  - apply list_lookup_insert_eq. rewrite length_insert.
    by eapply lookup_lt_Some.
Qed.

Lemma write_results_appends_one_row_witness :
  ∃ w', write_results 2 pzem 0 "./log_files/pzem_logs.csv" first_generator
        = (Ok tt, w')
        ∧ rows_at w' log_path = Some [CStr <$> header; sample_row].
Proof.
  destruct (write_results_appends_one_row 0 pzem 0 "./log_files/pzem_logs.csv"
              log_path [CStr <$> header] steady_regs first_generator
              ltac:(vm_compute; reflexivity)
              ltac:(vm_compute; reflexivity)
              ltac:(vm_compute; reflexivity)
              ltac:(intros k a; vm_compute; reflexivity)
              ltac:(vm_compute; reflexivity))
    as (w' & Hrun & Hrows & _).
  exists w'. split; [exact Hrun|]. rewrite Hrows. vm_compute. reflexivity.
Defined.

(** X4. [write_results] on a generator that has already been advanced,
    as in the handler of [main]: once the file is open it returns at the
    first turn of its loop, writing no row and making no read. *)
Theorem write_results_used_generator (fuel : nat) (i : instrument) (g : nat)
    (filepath : string) (f : path) (st : gen_state) (w w0 : world) :
  generators w !! g = Some st →
  st ≠ GenCreated →
  Os.open_append filepath w = (Ok f, w0) →
  ∃ w', write_results (S fuel) i g filepath w = (Ok tt, w')
        ∧ fs w' = fs w0
        ∧ reads_done w' = reads_done w
        ∧ clock_reads w' = clock_reads w
        ∧ ticks w' = ticks w
        ∧ stdout w' = stdout w
        ∧ generators w' !! g = Some GenFinished.
Proof.
  intros Hg Hst Hopen.
  assert (w0 = set_fs (fs w0) w) as Hw0.
  { revert Hopen. unfold Os.open_append.
    repeat case_match; intros [= _ <-]; by destruct w. }
  assert (g < length (generators w))%nat as Hlen by (by eapply lookup_lt_Some).
  unfold write_results, bind. rewrite Hopen. cbn [write_rows].
  unfold bind, gen_next. rewrite Hw0. cbn [generators set_fs]. rewrite Hg.
  destruct st; [done| |]; eexists; (split; [reflexivity|]); cbn;
    repeat split; try done.
  by rewrite list_lookup_insert_eq.
Qed.

Lemma write_results_used_generator_witness :
  ∃ w', write_results 1 pzem 0 "./log_files/pzem_logs.csv" first_generator_used
        = (Ok tt, w')
        ∧ fs w' = fs first_generator_used
        ∧ reads_done w' = 8%nat.
Proof.
  destruct (write_results_used_generator 0 pzem 0 "./log_files/pzem_logs.csv"
              log_path GenFinished first_generator_used first_generator_used
              ltac:(vm_compute; reflexivity)
              ltac:(discriminate)
              ltac:(vm_compute; reflexivity))
    as (w' & Hrun & Hfs & Hreads & _).
  exists w'. split; [exact Hrun|]. split; [exact Hfs|]. exact Hreads.
Defined.

Lemma write_rows_after_yield (fuel : nat) (i : instrument) (g : nat)
    (f : path) (w : world) :
  generators w !! g = Some GenSuspended →
  write_rows (S fuel) i g f w
  = (Ok tt, set_generators (<[g := GenFinished]> (generators w)) w).
Proof.
  intros Hg. cbn [write_rows]. unfold bind, gen_next. by rewrite Hg.
Qed.

Lemma write_rows_ends (fuel : nat) (i : instrument) (g : nat) (f : path)
    (w : world) :
  write_rows (S (S fuel)) i g f w = write_rows 2 i g f w
  ∧ (write_rows 2 i g f w).1 ≠ OutOfFuel.
Proof.
  cbn [write_rows]. unfold bind.
  pose proof (gen_next_outcome i g w) as (Hres & _).
  destruct (gen_next i g w) as [[[r|]|e|] w1]; cbn [fst snd] in Hres;
    try (split; [reflexivity|unfold ret; cbn; congruence]); try done.
  unfold checkpoint.
  destruct (sigint w1 (ticks w1)); [done|].
  unfold Os.writerow. cbn [fs set_ticks].
  destruct (fs w1 !! f) as [[wr|rows]|]; try done.
  unfold gen_next. cbn [generators set_fs set_ticks]. by rewrite Hres.
Qed.

(** X5. The [for] loop of [write_results] always comes to an end: a
    generator of [read_pzem_data] yields at most once, so two turns of
    the loop give the outcome whatever the state of the generator, the
    device and the file system, and more fuel changes nothing. *)
Theorem write_results_ends (fuel : nat) (i : instrument) (g : nat)
    (filepath : string) (w : world) :
  write_results (S (S fuel)) i g filepath w = write_results 2 i g filepath w
  ∧ (write_results 2 i g filepath w).1 ≠ OutOfFuel.
Proof.
  unfold write_results, bind.
  destruct (Os.open_append filepath w) as [[f|e|] w0] eqn:Hopen; [|done|].
  - apply write_rows_ends.
  - revert Hopen. unfold Os.open_append. by repeat case_match.
Qed.

Lemma write_rows_at_most_one_row (fuel : nat) (i : instrument) (g : nat)
    (f : path) (w : world) :
  fs (write_rows fuel i g f w).2 = fs w
  ∨ ∃ rows r, fs w !! f = Some (File rows)
              ∧ fs (write_rows fuel i g f w).2
                = <[f := File (rows ++ [r])]> (fs w).
Proof.
  destruct fuel as [|fuel]; [by left|].
  cbn [write_rows]. unfold bind.
  pose proof (gen_next_outcome i g w) as (Hres & Hfs & _).
  destruct (gen_next i g w) as [[[r|]|e|] w1]; cbn [fst snd] in *;
    [|by left..].
  unfold checkpoint.
  destruct (sigint w1 (ticks w1)); [by left|].
  unfold Os.writerow. cbn [fs set_ticks].
  rewrite Hfs.
  destruct (fs w !! f) as [[wr|rows]|] eqn:Hf; try by left.
  right. exists rows, r. split; [done|].
  destruct fuel as [|fuel]; [reflexivity|].
  rewrite write_rows_after_yield by done. reflexivity.
Qed.

(** X6. A call of [write_results] changes the file system by at most
    one row: apart from what opening the file does, either nothing is
    written or one row is appended to the file opened. *)
Theorem write_results_at_most_one_row (fuel : nat) (i : instrument)
    (g : nat) (filepath : string) (w : world) :
  fs (write_results fuel i g filepath w).2 = fs (Os.open_append filepath w).2
  ∨ ∃ f rows r,
      (Os.open_append filepath w).1 = Ok f
      ∧ fs (Os.open_append filepath w).2 !! f = Some (File rows)
      ∧ fs (write_results fuel i g filepath w).2
        = <[f := File (rows ++ [r])]> (fs (Os.open_append filepath w).2).
Proof.
  unfold write_results, bind.
  destruct (Os.open_append filepath w) as [[f|e|] w0]; [|by left..].
  destruct (write_rows_at_most_one_row fuel i g f w0)
    as [H|(rows & r & Hf & H)]; [by left|].
  right. by exists f, rows, r.
Qed.

(** ** Invariants of the effects *)

Section Preserves.

Context (R : world → world → Prop) `{!Reflexive R, !Transitive R}.

Lemma preserves_ret {A} (a : A) : preserves R (ret a).
Proof. intros w. reflexivity. Qed.

Lemma preserves_raise {A} (e : exn) : preserves R (raise (A:=A) e).
Proof. intros w. reflexivity. Qed.

Lemma preserves_out_of_fuel {A} : preserves R (out_of_fuel (A:=A)).
Proof. intros w. reflexivity. Qed.

Lemma preserves_get_world : preserves R get_world.
Proof. intros w. reflexivity. Qed.

Lemma preserves_bind {A B} (m : M A) (k : A → M B) :
  preserves R m → (∀ a, preserves R (k a)) → preserves R (bind m k).
Proof.
  intros Hm Hk w. unfold bind. specialize (Hm w).
  destruct (m w) as [[a|e|] w1]; cbn [snd] in *; [|done..].
  etrans; [exact Hm|apply Hk].
Qed.

Lemma preserves_try_except {A} (m : M A) (h : exn → M A) :
  preserves R m → (∀ e, preserves R (h e)) → preserves R (try_except m h).
Proof.
  intros Hm Hh w. unfold try_except. specialize (Hm w).
  destruct (m w) as [[a|e|] w1]; cbn [snd] in *; [done| |done].
  etrans; [exact Hm|apply Hh].
Qed.

End Preserves.

#[global] Instance append_only_refl : Reflexive append_only.
Proof. intros f q [wr|rows] Hq; [done|]. exists []. by rewrite app_nil_r. Qed.

#[global] Instance append_only_trans : Transitive append_only.
Proof.
  intros f1 f2 f3 H12 H23 q [wr|rows] Hq.
  - apply (H23 q (Dir wr)), (H12 q (Dir wr)), Hq.
  - destruct (H12 q (File rows) Hq) as [new Hnew].
    destruct (H23 q (File (rows ++ new)) Hnew) as [new' Hnew'].
    exists (new ++ new'). by rewrite app_assoc.
Qed.

Lemma subseteq_append_only (f f' : gmap path node) :
  f ⊆ f' → append_only f f'.
Proof.
  intros Hsub q [wr|rows] Hq.
  - by eapply lookup_weaken.
  - exists []. rewrite app_nil_r. by eapply lookup_weaken.
Qed.

#[global] Instance growing_refl : Reflexive growing.
Proof. intros w. split; reflexivity. Qed.

#[global] Instance growing_trans : Transitive growing.
Proof.
  intros w1 w2 w3 [Ha Hp] [Ha' Hp']. split; [by etrans|congruence].
Qed.

#[global] Instance transport_untouched_refl : Reflexive transport_untouched.
Proof. intros w. by repeat split. Qed.

#[global] Instance transport_untouched_trans : Transitive transport_untouched.
Proof.
  intros w1 w2 w3 (?&?&?&?&?&?&?&?) (?&?&?&?&?&?&?&?).
  repeat split; congruence.
Qed.

Section Effects.

Lemma makedirs_growing (name : string) : preserves growing (Os.makedirs name).
Proof.
  intros w. split.
  - apply subseteq_append_only, makedirs_fs.
  - unfold Os.makedirs. by repeat case_match.
Qed.

Lemma makedirs_transport (name : string) :
  preserves transport_untouched (Os.makedirs name).
Proof. intros w. unfold Os.makedirs. by repeat case_match. Qed.

Lemma open_append_growing (name : string) :
  preserves growing (Os.open_append name).
Proof.
  intros w. unfold Os.open_append.
  destruct (Os.locate (fs w) name) as [p|]; [|reflexivity].
  destruct (Os.lookup_node (fs w) p) as [[wr|rows]|] eqn:Hp; try reflexivity.
  destruct (Os.is_writable_dir (fs w) (removelast p)); [|reflexivity].
  split; [|done]. cbn. apply subseteq_append_only, insert_subseteq.
  by destruct p.
Qed.

Lemma open_append_transport (name : string) :
  preserves transport_untouched (Os.open_append name).
Proof. intros w. unfold Os.open_append. by repeat case_match. Qed.

Lemma writerow_growing (f : path) (r : row) : preserves growing (Os.writerow f r).
Proof.
  intros w. unfold Os.writerow.
  destruct (fs w !! f) as [[wr|rows]|] eqn:Hf; try reflexivity.
  split; [|done]. cbn. intros q nd Hq.
  destruct (decide (f = q)) as [<-|Hne].
  - rewrite lookup_insert_eq. rewrite Hf in Hq. injection Hq as <-. by exists [r].
  - rewrite lookup_insert_ne by done. by apply (append_only_refl (fs w)).
Qed.

Lemma writerow_transport (f : path) (r : row) :
  preserves transport_untouched (Os.writerow f r).
Proof. intros w. unfold Os.writerow. by repeat case_match. Qed.

Lemma print_growing (s : string) : preserves growing (print s).
Proof. intros w. split; [reflexivity|done]. Qed.

Lemma print_transport (s : string) : preserves transport_untouched (print s).
Proof. intros w. by repeat split. Qed.

Lemma checkpoint_growing : preserves growing checkpoint.
Proof. intros w. unfold checkpoint. case_match; (split; [reflexivity|done]). Qed.

Lemma read_pzem_data_growing (i : instrument) :
  preserves growing (read_pzem_data i).
Proof. intros w. split; [reflexivity|done]. Qed.

Lemma unique_filepath_same (fuel : nat) (folder file_name outfile : string)
    (n : nat) (p : string) (w : world) :
  (unique_filepath fuel folder file_name outfile n p w).2 = w.
Proof.
  revert outfile n p. induction fuel as [|fuel IH]; intros outfile n p; [done|].
  cbn [unique_filepath]. unfold bind, get_world.
  destruct (Os.path_exists (fs w) p); [apply IH|done].
Qed.

Lemma gen_next_growing (i : instrument) (g : nat) :
  preserves growing (gen_next i g).
Proof.
  intros w. unfold gen_next.
  destruct (generators w !! g) as [[| |]|]; try (split; [reflexivity|done]).
  unfold read_pzem_data_body, try_except, bind.
  pose proof (read_pzem_data_try_frame i w) as (Hf & _ & Hs & _).
  destruct (read_pzem_data_try i w) as [[r|e|] w1]; cbn [fst snd] in *.
  - split; cbn; [rewrite Hf; reflexivity|done].
  - unfold read_pzem_data_except.
    destruct (is_IllegalRequestError e);
      (split; cbn; [rewrite Hf; reflexivity|done]).
  - split; cbn; [rewrite Hf; reflexivity|done].
Qed.

Lemma write_rows_growing (fuel : nat) (i : instrument) (g : nat) (f : path) :
  preserves growing (write_rows fuel i g f).
Proof.
  induction fuel as [|fuel IH]; [apply preserves_out_of_fuel; apply _|].
  cbn [write_rows]. apply preserves_bind; [apply _..|apply gen_next_growing|].
  intros [r|]; [|apply preserves_ret; apply _].
  apply preserves_bind; [apply _..|apply checkpoint_growing|]. intros _.
  apply preserves_bind; [apply _..|apply writerow_growing|]. intros _.
  exact IH.
Qed.

Lemma write_results_growing (fuel : nat) (i : instrument) (g : nat)
    (filepath : string) :
  preserves growing (write_results fuel i g filepath).
Proof.
  unfold write_results.
  apply preserves_bind; [apply _..|apply open_append_growing|].
  intros f. apply write_rows_growing.
Qed.

End Effects.

(** Whatever the library calls of [log_file] preserve, [log_file]
    preserves. *)
Section LogFilePreserves.

Context (R : world → world → Prop) `{!Reflexive R, !Transitive R}.
Hypothesis makedirs_R : ∀ name, preserves R (Os.makedirs name).
Hypothesis print_R : ∀ s, preserves R (print s).
Hypothesis open_append_R : ∀ name, preserves R (Os.open_append name).
Hypothesis writerow_R : ∀ f r, preserves R (Os.writerow f r).

Lemma log_file_preserves (fuel : nat) (outfile dir : string) :
  preserves R (log_file fuel outfile dir).
Proof.
  unfold log_file. apply preserves_bind; [apply _..|apply makedirs_R|].
  intros _. destruct (Os.path_splitext outfile) as [file_name extension].
  case_bool_decide; [apply preserves_raise; apply _|].
  apply preserves_bind; [apply _..| |].
  { apply preserves_try_except; [apply _..|apply makedirs_R|].
    intros e. destruct (is_OSError e); [apply print_R|].
    apply preserves_raise; apply _. }
  intros _. apply preserves_bind; [apply _..| |].
  { intros w. rewrite unique_filepath_same. reflexivity. }
  intros [[o n] p]. apply preserves_bind; [apply _..|apply open_append_R|].
  intros f. apply preserves_bind; [apply _..|apply writerow_R|].
  intros _. apply preserves_ret; apply _.
Qed.

End LogFilePreserves.

Lemma log_file_transport (fuel : nat) (outfile dir : string)
    (w : world) :
  transport_untouched w (log_file fuel outfile dir w).2.
Proof.
  apply (log_file_preserves transport_untouched);
    auto using makedirs_transport, print_transport, open_append_transport,
      writerow_transport.
Qed.

Lemma log_file_growing (fuel : nat) (outfile dir : string) :
  preserves growing (log_file fuel outfile dir).
Proof.
  apply (log_file_preserves growing);
    auto using makedirs_growing, print_growing, open_append_growing,
      writerow_growing.
Qed.

(** ** More on [log_file] *)

(** X7. [log_file] has nothing to do with the instrument: however it
    ends, the serial port, the device, the read counter, the clock and
    the pending interrupts are as before. *)
Theorem log_file_leaves_transport (fuel : nat) (outfile dir : string)
    (w : world) :
  let w' := (log_file fuel outfile dir w).2 in
  device w' = device w ∧ reads_done w' = reads_done w
  ∧ serial_open w' = serial_open w ∧ clock w' = clock w
  ∧ clock_reads w' = clock_reads w ∧ sigint w' = sigint w
  ∧ ticks w' = ticks w ∧ generators w' = generators w.
Proof. exact (log_file_transport fuel outfile dir w). Qed.

Lemma log_file_keeps_entries (fuel : nat) (outfile dir : string) (w : world) :
  fs w ⊆ fs (log_file fuel outfile dir w).2.
Proof.
  unfold log_file, bind.
  pose proof (makedirs_fs dir w) as [Hsub1 _].
  destruct (Os.makedirs dir w) as [[[]|e|] w1]; cbn [snd] in Hsub1; [|done..].
  destruct (Os.path_splitext outfile) as [file_name extension] eqn:Hsplit.
  case_bool_decide as Hext; [done|].
  destruct (guarded_makedirs (Os.path_join dir "log_files") w1)
    as (w2 & -> & Hfs2).
  pose proof (makedirs_fs (Os.path_join dir "log_files") w1) as [Hsub2 _].
  rewrite <-Hfs2 in Hsub2.
  assert (fs w ⊆ fs w2) as Hsub by (by etrans).
  pose proof (unique_filepath_spec (Os.path_join dir "log_files")
                file_name extension fuel 0 w2) as Hloop.
  rewrite <-(path_splitext_app _ _ _ Hsplit) at 1 2.
  change (Os.path_join (Os.path_join dir "log_files") (file_name +:+ extension))
    with (candidate (Os.path_join dir "log_files") file_name extension 0).
  change (file_name +:+ extension) with (file_name +:+ suffix extension 0) at 1.
  destruct (unique_filepath _ _ _ _ _ _ w2) as [[[[o n] p']|e|] w3]; [|done|].
  - destruct Hloop as (-> & j & -> & -> & -> & Hfree & _).
    unfold Os.open_append, Os.path_exists in *.
    destruct (Os.locate (fs w2) _) as [q|] eqn:Hq; [|done].
    apply bool_decide_eq_false in Hfree.
    destruct (Os.lookup_node (fs w2) q) as [nd|] eqn:Hnode.
    { destruct Hfree. by exists nd. }
    destruct (Os.is_writable_dir (fs w2) (removelast q)); [|done].
    assert (fs w2 !! q = None) as Hnone by (by destruct q).
    unfold Os.writerow. cbn. rewrite lookup_insert_eq. cbn.
    rewrite insert_insert_eq. etrans; [exact Hsub|].
    by apply insert_subseteq.
  - by destruct Hloop as (-> & _).
Qed.

(** X8. What [log_file] leaves on disk, however it ends: every entry
    that existed is still there unchanged, and the only regular file that
    can be new is the log it returns, holding the header and nothing
    else. *)
Theorem log_file_footprint (fuel : nat) (outfile dir : string) (w : world) :
  fs w ⊆ fs (log_file fuel outfile dir w).2
  ∧ ∀ q rows,
      fs (log_file fuel outfile dir w).2 !! q = Some (File rows) →
      fs w !! q = Some (File rows)
      ∨ (fs w !! q = None
         ∧ rows = [CStr <$> header]
         ∧ ∃ p, (log_file fuel outfile dir w).1 = Ok p
                ∧ Os.locate (fs (log_file fuel outfile dir w).2) p = Some q).
Proof.
  remember (log_file fuel outfile dir w) as r eqn:Hr.
  unfold log_file, bind in Hr.
  pose proof (makedirs_fs dir w) as [Hsub1 Hfiles1].
  destruct (Os.makedirs dir w) as [[[]|e|] w1]; cbn [snd] in Hsub1, Hfiles1;
    [|subst r; by (split; [|left; eauto])..].
  destruct (Os.path_splitext outfile) as [file_name extension] eqn:Hsplit.
  case_bool_decide as Hext; [subst r; by (split; [|left; eauto])|].
  destruct (guarded_makedirs (Os.path_join dir "log_files") w1)
    as (w2 & Hguard & Hfs2).
  rewrite Hguard in Hr.
  pose proof (makedirs_fs (Os.path_join dir "log_files") w1) as [Hsub2 Hfiles2].
  rewrite <-Hfs2 in Hsub2, Hfiles2.
  assert (fs w ⊆ fs w2) as Hsub by (by etrans).
  assert (∀ q rows, fs w2 !! q = Some (File rows) →
                    fs w !! q = Some (File rows)) as Hfiles by eauto.
  pose proof (unique_filepath_spec (Os.path_join dir "log_files")
                file_name extension fuel 0 w2) as Hloop.
  rewrite <-(path_splitext_app _ _ _ Hsplit) in Hr at 1 2.
  change (Os.path_join (Os.path_join dir "log_files") (file_name +:+ extension))
    with (candidate (Os.path_join dir "log_files") file_name extension 0) in Hr.
  change (file_name +:+ extension) with (file_name +:+ suffix extension 0)
    in Hr at 1.
  destruct (unique_filepath _ _ _ _ _ _ w2) as [[[[o n] p']|e|] w3].
  - destruct Hloop as (-> & j & -> & -> & -> & Hfree & _).
    unfold Os.open_append, Os.path_exists in *.
    destruct (Os.locate (fs w2) _) as [q0|] eqn:Hq;
      [|subst r; by (split; [|left; eauto])].
    apply bool_decide_eq_false in Hfree.
    destruct (Os.lookup_node (fs w2) q0) as [nd|] eqn:Hnode.
    { destruct Hfree. by exists nd. }
    destruct (Os.is_writable_dir (fs w2) (removelast q0));
      [|subst r; by (split; [|left; eauto])].
    assert (fs w2 !! q0 = None) as Hnone by (by destruct q0).
    unfold Os.writerow, ret in Hr. cbn [fs set_fs] in Hr.
    rewrite lookup_insert_eq in Hr. cbn [fs set_fs] in Hr.
    rewrite insert_insert_eq in Hr. subst r. cbn [fst snd fs set_fs].
    split.
    + etrans; [exact Hsub|]. by apply insert_subseteq.
    + intros q rows. destruct (decide (q0 = q)) as [<-|Hne].
      * rewrite lookup_insert_eq. intros [= <-]. right.
        split; [|split; [done|]].
        { destruct (fs w !! q0) as [nd|] eqn:Hw; [|done].
          by rewrite (lookup_weaken _ _ _ _ Hw Hsub) in Hnone. }
        eexists. split; [reflexivity|].
        eapply locate_mono; [|exact Hq]. by apply insert_subseteq.
      * rewrite lookup_insert_ne by done. left. eauto.
  - done.
  - destruct Hloop as (-> & _). subst r. split; [done|]. left. eauto.
Qed.

Lemma log_file_opens_log (fuel : nat) (outfile dir : string)
    (w w' : world) (p : string) :
  log_file fuel outfile dir w = (Ok p, w') →
  ∃ q, Os.locate (fs w') p = Some q
       ∧ Os.lookup_node (fs w') q = Some (File [CStr <$> header]).
Proof.
  intros H.
  destruct (log_file_returns _ _ _ _ _ _ H)
    as (file_name & extension & w2 & j & q & _ & Hext & _ & _
        & -> & _ & _ & Hq & Hnone & Hfs).
  exists q. split.
  - rewrite Hfs. eapply locate_mono; [|done]. by apply insert_subseteq.
  - rewrite candidate_app in Hq by done.
    destruct (locate_with_suffix (fs w2)
                (Os.path_join (Os.path_join dir "log_files") file_name))
      as (home & l & Hloc).
    rewrite (Hloc _ (suffix_plain extension j Hext)) in Hq.
    destruct home as [cur|]; [|done]. injection Hq as <-.
    rewrite lookup_node_snoc, Hfs. apply lookup_insert_eq.
Qed.

(** X9. Two successive calls of [log_file] that return, whatever
    their arguments, return different paths, naming two different files
    each holding just the header: the second call does not touch the log
    of the first. *)
Theorem log_file_twice_distinct (fuel fuel' : nat)
    (outfile dir outfile' dir' : string) (w w1 w2 : world) (p p' : string) :
  log_file fuel outfile dir w = (Ok p, w1) →
  log_file fuel' outfile' dir' w1 = (Ok p', w2) →
  p' ≠ p
  ∧ ∃ q q', Os.locate (fs w2) p = Some q ∧ Os.locate (fs w2) p' = Some q'
            ∧ q ≠ q'
            ∧ rows_at w2 q = Some [CStr <$> header]
            ∧ rows_at w2 q' = Some [CStr <$> header].
Proof.
  intros H1 H2.
  destruct (log_file_opens_log _ _ _ _ _ _ H1) as (q & Hq & Hnode).
  destruct (log_file_opens_log _ _ _ _ _ _ H2) as (q' & Hq' & Hnode').
  destruct (log_file_returns _ _ _ _ _ _ H2)
    as (file_name & extension & w3 & j & q0 & _ & _ & _ & Hsub
        & _ & Hfree & _ & Hq0 & Hnone & Hfs).
  pose proof (log_file_keeps_entries fuel' outfile' dir' w1) as Hkeep.
  rewrite H2 in Hkeep. cbn [snd] in Hkeep.
  assert (Os.path_exists (fs w1) p = true) as Hex.
  { unfold Os.path_exists. rewrite Hq, Hnode. by apply bool_decide_eq_true. }
  assert (p' ≠ p) as Hne.
  { intros ->. by rewrite (path_exists_mono _ _ _ Hsub Hex) in Hfree. }
  split; [exact Hne|].
  assert (fs w1 !! q = Some (File [CStr <$> header])) as Hf
    by (by destruct q).
  assert (fs w2 !! q' = Some (File [CStr <$> header])) as Hf'
    by (by destruct q').
  exists q, q'. split; [by eapply locate_mono|]. split; [done|].
  split; [|split].
  - intros <-.
    assert (q0 = q) as ->.
    { rewrite Hfs in Hq'.
      pose proof (locate_mono _ _ _ _
                    (insert_subseteq _ _ (File [CStr <$> header]) Hnone) Hq0)
        as Hq0'.
      congruence. }
    by rewrite (lookup_weaken _ _ _ _ Hf Hsub) in Hnone.
  - unfold rows_at. by rewrite (lookup_weaken _ _ _ _ Hf Hkeep).
  - unfold rows_at. by rewrite Hf'.
Qed.

Lemma log_file_twice_distinct_witness :
  "./log_files/pzem_logs_1.csv" ≠ "./log_files/pzem_logs.csv"
  ∧ ∃ q q', Os.locate (fs after_two_runs) "./log_files/pzem_logs.csv" = Some q
            ∧ Os.locate (fs after_two_runs) "./log_files/pzem_logs_1.csv"
              = Some q'
            ∧ q ≠ q'
            ∧ rows_at after_two_runs q = Some [CStr <$> header]
            ∧ rows_at after_two_runs q' = Some [CStr <$> header].
Proof.
  exact (log_file_twice_distinct 1 2 "pzem_logs.csv" "./" "pzem_logs.csv" "./"
           (fresh_world steady_device never) after_one_run after_two_runs
           "./log_files/pzem_logs.csv" "./log_files/pzem_logs_1.csv"
           ltac:(vm_compute; reflexivity) ltac:(vm_compute; reflexivity)).
Defined.

Lemma components_default_log (x : string) :
  plain x →
  Os.components ("./log_files/pzem_logs" +:+ x)
  = ["."; "log_files"; "pzem_logs" +:+ x].
Proof.
  intros Hp.
  destruct (split_app "/" "./log_files/pzem_logs") as (init & last & Hs & Hx).
  change (PyStr.split "/" "./log_files/pzem_logs")
    with (["."; "log_files"] ++ ["pzem_logs"]) in Hs.
  apply app_inj_tail in Hs as [<- <-].
  unfold Os.components. rewrite (Hx x (proj1 Hp)). reflexivity.
Qed.

Lemma locate_default (fm : gmap path node) (x : string) :
  plain x →
  Os.is_dir fm ["log_files"] = true →
  Os.locate fm ("./log_files/pzem_logs" +:+ x)
  = Some ["log_files"; "pzem_logs" +:+ x].
Proof.
  intros Hp Hd. unfold Os.locate.
  rewrite bool_decide_false by (apply plain_app_ne; [done|cbn; lia]).
  rewrite (components_default_log x Hp).
  cbn [Os.walk]. change (Os.is_dir fm []) with true. cbv iota.
  rewrite bool_decide_true by done.
  rewrite bool_decide_false by done. rewrite bool_decide_false by done.
  cbn [app]. rewrite Hd.
  rewrite bool_decide_false by (apply plain_app_ne; [done|cbn; lia]).
  rewrite bool_decide_false by (apply plain_app_ne; [done|cbn; lia]).
  done.
Qed.

Lemma log_file_default (fuel : nat) (w : world) :
  healthy (fs w) →
  (S (size (fs w)) < fuel)%nat →
  ∃ (j : nat) (w' : world),
    log_file fuel "pzem_logs.csv" "./" w
    = (Ok ("./log_files/pzem_logs" +:+ suffix ".csv" j), w')
    ∧ (j ≤ S (size (fs w)))%nat
    ∧ Os.locate (fs w') ("./log_files/pzem_logs" +:+ suffix ".csv" j)
      = Some ["log_files"; "pzem_logs" +:+ suffix ".csv" j]
    ∧ rows_at w' ["log_files"; "pzem_logs" +:+ suffix ".csv" j]
      = Some [CStr <$> header]
    ∧ Os.is_writable_dir (fs w') ["log_files"] = true
    ∧ stdout w' = stdout w.
Proof.
  intros Hfolder Hfuel. unfold log_file, bind.
  assert (Os.makedirs "./" w = (Ok tt, set_fs (fs w) w)) as -> by reflexivity.
  change (Os.path_splitext "pzem_logs.csv") with ("pzem_logs", ".csv").
  cbv iota beta.
  rewrite bool_decide_false by (by vm_compute).
  change (Os.path_join "./" "log_files") with "./log_files".
  assert (∃ f2, Os.makedirs "./log_files" (set_fs (fs w) w)
                = (Ok tt, set_fs f2 w)
                ∧ Os.lookup_node f2 ["log_files"] = Some (Dir true)
                ∧ (size f2 ≤ S (size (fs w)))%nat) as (f2 & Hmk & Hdir & Hsize).
  { unfold Os.makedirs. rewrite bool_decide_false by done.
    change (Os.components "./log_files") with ["."; "log_files"].
    cbn [Os.makedirs_walk]. rewrite bool_decide_true by done.
    rewrite bool_decide_false by done. rewrite bool_decide_false by done.
    cbn [app fs set_fs].
    destruct Hfolder as [[Hnone Hcwd]|Hsome].
    - rewrite Hnone, Hcwd. eexists. split; [reflexivity|]. split.
      + cbn [Os.lookup_node app]. apply lookup_insert_eq.
      + rewrite map_size_insert_None by exact Hnone. lia.
    - rewrite Hsome. exists (fs w). split; [reflexivity|]. split; [exact Hsome|lia]. }
  unfold try_except. rewrite Hmk.
  change (Os.path_join "./log_files" "pzem_logs.csv")
    with "./log_files/pzem_logs.csv".
  destruct (unique_filepath_stops "./log_files" "pzem_logs" ".csv" eq_refl
              (set_fs f2 w)) as (j & Hfree & _ & Hj & _ & Hrun).
  specialize (Hrun fuel ltac:(cbn [fs set_fs]; lia)).
  change ("pzem_logs" +:+ ".csv") with "pzem_logs.csv" in Hrun.
  change (Os.path_join "./log_files" "pzem_logs.csv")
    with "./log_files/pzem_logs.csv" in Hrun.
  rewrite Hrun.
  cbn [fs set_fs] in Hfree, Hj.
  assert (candidate "./log_files" "pzem_logs" ".csv" j
          = "./log_files/pzem_logs" +:+ suffix ".csv" j) as Hcand.
  { rewrite candidate_app by done. done. }
  rewrite Hcand in *.
  assert (Os.is_dir f2 ["log_files"] = true) as Hd.
  { unfold Os.is_dir. by rewrite Hdir. }
  pose proof (locate_default f2 _ (suffix_plain ".csv" j eq_refl) Hd) as Hloc.
  unfold Os.path_exists in Hfree. rewrite Hloc in Hfree.
  apply bool_decide_eq_false in Hfree.
  unfold Os.open_append. cbn [fs set_fs]. rewrite Hloc.
  destruct (Os.lookup_node f2 ["log_files"; "pzem_logs" +:+ suffix ".csv" j])
    as [nd|] eqn:Hnode.
  { destruct Hfree. by exists nd. }
  cbn [removelast]. unfold Os.is_writable_dir at 1. rewrite Hdir.
  unfold Os.writerow. cbn [fs set_fs]. rewrite lookup_insert_eq.
  cbn [ret]. exists j. eexists. split; [reflexivity|].
  cbn [fs set_fs stdout]. rewrite insert_insert_eq.
  split; [lia|]. split; [|split; [|split]].
  - apply locate_default; [by apply suffix_plain|].
    unfold Os.is_dir. cbn [Os.lookup_node] in *.
    rewrite lookup_insert_ne by done. by rewrite Hdir.
  - unfold rows_at. cbn [fs set_fs]. by rewrite lookup_insert_eq.
  - unfold Os.is_writable_dir. cbn [Os.lookup_node fs set_fs] in *.
    rewrite lookup_insert_ne by done. by rewrite Hdir.
  - done.
Qed.

(** X10. The call [log_file()] of [main] in a healthy working
    directory, one where [log_files] is a writable directory, or is
    missing while entries may be created in the working directory: it
    returns [./log_files/pzem_logs.csv] or the first free numbered name
    after it, the file then holds the header, and nothing is printed.
    Fuel beyond the number of entries plus one is enough. *)
Theorem log_file_default_succeeds (fuel : nat) (w : world) :
  healthy (fs w) →
  (S (size (fs w)) < fuel)%nat →
  ∃ (j : nat) (w' : world),
    log_file fuel "pzem_logs.csv" "./" w
    = (Ok ("./log_files/pzem_logs" +:+ suffix ".csv" j), w')
    ∧ (j ≤ S (size (fs w)))%nat
    ∧ Os.locate (fs w') ("./log_files/pzem_logs" +:+ suffix ".csv" j)
      = Some ["log_files"; "pzem_logs" +:+ suffix ".csv" j]
    ∧ rows_at w' ["log_files"; "pzem_logs" +:+ suffix ".csv" j]
      = Some [CStr <$> header]
    ∧ Os.is_writable_dir (fs w') ["log_files"] = true
    ∧ stdout w' = stdout w.
Proof. exact (log_file_default fuel w). Qed.

Lemma log_file_default_succeeds_witness :
  ∃ (j : nat) (w' : world),
    log_file 4 "pzem_logs.csv" "./" after_one_run
    = (Ok ("./log_files/pzem_logs" +:+ suffix ".csv" j), w')
    ∧ rows_at w' ["log_files"; "pzem_logs" +:+ suffix ".csv" j]
      = Some [CStr <$> header].
Proof.
  destruct (log_file_default_succeeds 4 after_one_run
              ltac:(right; vm_compute; reflexivity)
              ltac:(vm_compute; lia))
    as (j & w' & Hrun & _ & _ & Hrows & _).
  exists j, w'. split; [exact Hrun|exact Hrows].
Defined.

(** ** Rounds of the loop of [main] *)

(** Rewriting the rows of a regular file moves no directory, so every
    name still leads where it led. *)
Lemma is_dir_insert_file (fm : gmap path node) (f p : path)
    (rows rows' : list row) :
  fm !! f = Some (File rows) →
  Os.is_dir (<[f := File rows']> fm) p = Os.is_dir fm p.
Proof.
  intros Hf. unfold Os.is_dir, Os.lookup_node. destruct p as [|c p]; [done|].
  destruct (decide (f = c :: p)) as [<-|Hne].
  - by rewrite lookup_insert_eq, Hf.
  - by rewrite lookup_insert_ne.
Qed.

Lemma walk_insert_file (fm : gmap path node) (f cur : path)
    (rows rows' : list row) (l : list string) :
  fm !! f = Some (File rows) →
  Os.walk (<[f := File rows']> fm) cur l = Os.walk fm cur l.
Proof.
  intros Hf. revert cur. induction l as [|c l IH]; intros cur; [done|].
  cbn. rewrite (is_dir_insert_file _ _ _ _ _ Hf).
  destruct (Os.is_dir fm cur); [|done]. repeat case_bool_decide; apply IH.
Qed.

Lemma locate_insert_file (fm : gmap path node) (f : path)
    (rows rows' : list row) (name : string) :
  fm !! f = Some (File rows) →
  Os.locate (<[f := File rows']> fm) name = Os.locate fm name.
Proof.
  intros Hf. unfold Os.locate. case_bool_decide; [done|].
  by eapply walk_insert_file.
Qed.

Lemma main_iteration_round (fuel : nat) (i : instrument)
    (log_filepath : string) (data_gen : option nat) (f : path)
    (rows : list row) (regs : nat → Z → Z) (w : world) :
  Os.locate (fs w) log_filepath = Some f →
  Os.lookup_node (fs w) f = Some (File rows) →
  answers w regs →
  sigint w (ticks w) = false →
  sigint w (S (ticks w)) = false →
  main_iteration (S (S fuel)) i log_filepath data_gen w
  = (Ok (Some (length (generators w))),
     after_round w f rows
       (reading_of regs (reads_done w) (clock w (clock_reads w)))).
Proof.
  intros Hloc Hnode Hans Hsig Hsig'.
  unfold main_iteration, bind at 1. unfold try_except at 1, bind at 1.
  unfold checkpoint at 1. rewrite Hsig.
  unfold bind at 1. unfold read_pzem_data at 1. cbn [ret].
  unfold try_except, bind.
  rewrite (write_results_poll fuel i _ log_filepath f rows regs); try done.
  - cbn [ret]. f_equal. unfold after_poll, after_round.
    cbn [fs stdout device reads_done serial_open clock clock_reads sigint
         ticks generators set_generators set_ticks].
    f_equal.
    rewrite list_insert_insert_eq.
    rewrite insert_app_r_alt, Nat.sub_diag by done. done.
  - cbn [generators set_generators set_ticks].
    by rewrite lookup_app_r, Nat.sub_diag.
Qed.

Lemma readings_S (regs : nat → Z → Z) (clock : nat → string) (r c n : nat) :
  readings regs clock r c (S n)
  = reading_of regs r (clock c) :: readings regs clock (8 + r) (S c) n.
Proof.
  unfold readings. cbn [seq fmap list_fmap]. f_equal.
  rewrite <-seq_shift, <-list_fmap_compose. apply list_fmap_ext.
  intros _ k _. cbn. f_equal; [lia|f_equal; lia].
Qed.

(** [n] rounds with a device that answers and no interrupt in their
    [2 * n] interruptible points: the loop is where it was, [n] rounds
    on, with the [n] readings appended to the log. *)
Lemma main_loop_rounds (fuel n m : nat) (i : instrument)
    (log_filepath : string) (data_gen : option nat) (f : path)
    (rows : list row) (regs : nat → Z → Z) (w : world) :
  Os.locate (fs w) log_filepath = Some f →
  Os.lookup_node (fs w) f = Some (File rows) →
  answers w regs →
  (∀ k, (k < 2 * n)%nat → sigint w (k + ticks w) = false) →
  ∃ (w' : world) (data_gen' : option nat),
    main_loop (S (S fuel)) (n + m) i log_filepath data_gen w
    = main_loop (S (S fuel)) m i log_filepath data_gen' w'
    ∧ fs w' = <[f := File (rows ++ readings regs (clock w) (reads_done w)
                                     (clock_reads w) n)]> (fs w)
    ∧ stdout w' = stdout w
    ∧ device w' = device w
    ∧ reads_done w' = (8 * n + reads_done w)%nat
    ∧ serial_open w' = serial_open w
    ∧ clock w' = clock w
    ∧ clock_reads w' = (n + clock_reads w)%nat
    ∧ sigint w' = sigint w
    ∧ ticks w' = (2 * n + ticks w)%nat
    ∧ match n with
      | O => data_gen' = data_gen ∧ w' = w
      | S _ => ∃ g, data_gen' = Some g ∧ generators w' !! g = Some GenFinished
      end.
Proof.
  revert data_gen rows w.
  induction n as [|n IH]; intros data_gen rows w Hloc Hnode Hans Hsig.
  - assert (fs w !! f = Some (File rows)) as Hf by (destruct f; [done|exact Hnode]).
    exists w, data_gen. cbn [Nat.add readings seq fmap list_fmap].
    rewrite app_nil_r, insert_id by done. repeat split; try done; lia.
  - assert (fs w !! f = Some (File rows)) as Hf by (destruct f; [done|exact Hnode]).
    cbn [Nat.add main_loop]. unfold bind at 1.
    rewrite (main_iteration_round fuel i log_filepath data_gen f rows regs w);
      try done; [|apply (Hsig 0%nat); lia|apply (Hsig 1%nat); lia].
    set (r := reading_of regs (reads_done w) (clock w (clock_reads w))).
    destruct (IH (Some (length (generators w))) (rows ++ [r])
                (after_round w f rows r))
      as (w' & dg' & Hrun & Hfs & Hout & Hdev & Hreads & Hport & Hclock
          & Hcr & Hs & Ht & Hgen).
    + cbn [fs after_round]. by erewrite locate_insert_file.
    + cbn [fs after_round]. destruct f; [done|]. cbn. by rewrite lookup_insert_eq.
    + intros k a. apply Hans.
    + intros k Hk. cbn [sigint ticks after_round].
      replace (k + (2 + ticks w))%nat with ((2 + k) + ticks w)%nat by lia.
      apply Hsig. lia.
    + cbn [after_round fs reads_done stdout serial_open clock clock_reads
           device sigint ticks generators] in *.
      exists w'. eexists. split; [exact Hrun|].
      repeat split; try done; try lia.
      * by rewrite Hfs, insert_insert_eq, readings_S, <-app_assoc.
      * destruct n as [|n]; [|exact Hgen].
        destruct Hgen as [-> ->]. exists (length (generators w)).
        split; [done|]. cbn [generators after_round].
        by rewrite lookup_app_r, Nat.sub_diag.
Qed.

(** X11. The loop of [main] on a log that exists, with a device that
    always answers and no interrupt: it never ends. After any number [n]
    of rounds it is still running, the log holds the rows it held
    followed by the [n] readings in the order of the cycles, no other
    file has changed, [8 * n] registers have been read, nothing has been
    printed and the port is as it was. *)
Theorem main_loop_steady (fuel n : nat) (i : instrument)
    (log_filepath : string) (data_gen : option nat) (f : path)
    (rows : list row) (regs : nat → Z → Z) (w : world) :
  Os.locate (fs w) log_filepath = Some f →
  Os.lookup_node (fs w) f = Some (File rows) →
  answers w regs →
  (∀ k, sigint w k = false) →
  ∃ w', main_loop (S (S fuel)) n i log_filepath data_gen w = (OutOfFuel, w')
        ∧ rows_at w' f
          = Some (rows ++ readings regs (clock w) (reads_done w) (clock_reads w) n)
        ∧ (∀ q, q ≠ f → fs w' !! q = fs w !! q)
        ∧ reads_done w' = (8 * n + reads_done w)%nat
        ∧ stdout w' = stdout w
        ∧ serial_open w' = serial_open w.
Proof.
  intros Hloc Hnode Hans Hsig.
  destruct (main_loop_rounds fuel n 0 i log_filepath data_gen f rows regs w
              Hloc Hnode Hans ltac:(intros; apply Hsig))
    as (w' & dg' & Hrun & Hfs & Hout & _ & Hreads & Hport & _).
  rewrite Nat.add_0_r in Hrun. exists w'. split; [exact Hrun|].
  unfold rows_at. rewrite Hfs, lookup_insert_eq.
  repeat split; try done. intros q Hq. by rewrite lookup_insert_ne.
Qed.

Lemma main_loop_steady_witness :
  ∃ w', main_loop 2 3 pzem "./log_files/pzem_logs.csv" None
          (at_loop_entry steady_device) = (OutOfFuel, w')
        ∧ rows_at w' log_path
          = Some [CStr <$> header; sample_row; sample_row; sample_row]
        ∧ reads_done w' = 24%nat.
Proof.
  destruct (main_loop_steady 0 3 pzem "./log_files/pzem_logs.csv" None
              log_path [CStr <$> header] steady_regs
              (at_loop_entry steady_device)
              ltac:(vm_compute; reflexivity)
              ltac:(vm_compute; reflexivity)
              ltac:(intros k a; vm_compute; reflexivity)
              ltac:(intros k; vm_compute; reflexivity))
    as (w' & Hrun & Hrows & _ & Hreads & _).
  exists w'. split; [exact Hrun|]. split.
  - rewrite Hrows. vm_compute. reflexivity.
  - rewrite Hreads. vm_compute. reflexivity.
Defined.

(** X12. [log_file] and the loop fit together: in the world any
    successful [log_file] call leaves, the first round of the loop on the
    returned path, with a device that answers and no interrupt, appends
    the first reading right after the header. *)
Theorem first_round_after_log_file (fuel0 fuel : nat) (i : instrument)
    (outfile dir : string) (regs : nat → Z → Z) (w w' : world) (p : string) :
  log_file fuel0 outfile dir w = (Ok p, w') →
  answers w regs →
  sigint w (ticks w) = false →
  sigint w (S (ticks w)) = false →
  ∃ q w'',
    main_iteration (S (S fuel)) i p None w'
    = (Ok (Some (length (generators w))), w'')
    ∧ Os.locate (fs w'') p = Some q
    ∧ rows_at w'' q
      = Some [CStr <$> header;
              reading_of regs (reads_done w) (clock w (clock_reads w))].
Proof.
  intros Hlog Hans Hsig Hsig'.
  destruct (log_file_opens_log _ _ _ _ _ _ Hlog) as (q & Hloc & Hnode).
  pose proof (log_file_transport fuel0 outfile dir w)
    as (Hd & Hr & _ & Hc & Hcr & Hs & Ht & Hg).
  rewrite Hlog in *. cbn [snd] in *.
  assert (fs w' !! q = Some (File [CStr <$> header])) as Hf
    by (by destruct q).
  exists q. eexists. split; [|split].
  - rewrite (main_iteration_round fuel i p None q [CStr <$> header] regs w');
      try done.
    + by rewrite Hg.
    + intros k a. by rewrite Hd.
    + by rewrite Hs, Ht.
    + by rewrite Hs, Ht.
  - cbn [after_round fs]. by erewrite locate_insert_file.
  - unfold rows_at. cbn [after_round fs]. rewrite lookup_insert_eq.
    by rewrite Hr, Hc, Hcr.
Qed.

Lemma first_round_after_log_file_witness :
  ∃ q w'',
    main_iteration 2 pzem "./log_files/pzem_logs.csv" None after_one_run
    = (Ok (Some 0%nat), w'')
    ∧ Os.locate (fs w'') "./log_files/pzem_logs.csv" = Some q
    ∧ rows_at w'' q = Some [CStr <$> header; sample_row].
Proof.
  destruct (first_round_after_log_file 1 0 pzem "pzem_logs.csv" "./"
              steady_regs (fresh_world steady_device never) after_one_run
              "./log_files/pzem_logs.csv"
              ltac:(vm_compute; reflexivity)
              ltac:(intros k a; vm_compute; reflexivity)
              ltac:(vm_compute; reflexivity)
              ltac:(vm_compute; reflexivity))
    as (q & w'' & Hrun & Hloc & Hrows).
  exists q, w''. split; [exact Hrun|]. split; [exact Hloc|].
  rewrite Hrows. vm_compute. reflexivity.
Defined.

(** X13. A reading in flight is lost, in any round: when the interrupt
    lands after the generator has yielded its row and before the row is
    written, the handler of [main] iterates the same generator again,
    gets nothing, closes the port and leaves the loop; the eight
    registers have been read but the log is as it was. *)
Theorem reading_lost_on_interrupt (fuel : nat) (i : instrument)
    (log_filepath : string) (data_gen : option nat) (f : path)
    (rows : list row) (regs : nat → Z → Z) (w : world) :
  Os.locate (fs w) log_filepath = Some f →
  Os.lookup_node (fs w) f = Some (File rows) →
  answers w regs →
  sigint w (ticks w) = false →
  sigint w (S (ticks w)) = true →
  ∃ w', main_iteration (S fuel) i log_filepath data_gen w = (Ok None, w')
        ∧ fs w' = fs w
        ∧ reads_done w' = (8 + reads_done w)%nat
        ∧ serial_open w' = false.
Proof.
  intros Hloc Hnode Hans Hsig Hsig'.
  unfold main_iteration, bind at 1. unfold try_except at 1, bind at 1.
  unfold checkpoint at 1. rewrite Hsig.
  unfold bind at 1. unfold read_pzem_data at 1. cbn [ret].
  unfold try_except, bind at 1.
  unfold write_results at 1, bind at 1. unfold Os.open_append at 1.
  cbn [fs set_generators set_ticks]. rewrite Hloc, Hnode.
  cbn [write_rows]. unfold bind at 1. unfold gen_next at 1.
  cbn [generators set_generators set_ticks].
  rewrite lookup_app_r, Nat.sub_diag by done. cbn [lookup list_lookup].
  unfold read_pzem_data_body, try_except, bind at 1.
  match goal with
  | |- context [read_pzem_data_try i ?w0] =>
      rewrite (read_pzem_data_try_returns i w0 _ _ _ _ _ _ _ _
                 (answers_reads_return w0 regs Hans))
  end.
  cbn [ret read_pzem_data_finally snd fst set_gen modify].
  unfold bind at 1. unfold checkpoint at 1.
  cbn [sigint ticks set_generators set_clock_reads set_reads_done set_ticks].
  rewrite Hsig'.
  unfold main_except. cbn [is_KeyboardInterrupt].
  unfold bind at 1. unfold bind at 1.
  unfold write_results, bind at 1. unfold Os.open_append.
  cbn [fs set_generators set_clock_reads set_reads_done set_ticks].
  rewrite Hloc, Hnode.
  cbn [write_rows]. unfold bind at 1. unfold gen_next.
  cbn [generators set_generators set_clock_reads set_reads_done set_ticks].
  rewrite list_lookup_insert_eq by (rewrite length_app; cbn; lia).
  eexists. split; [reflexivity|]. done.
Qed.

Lemma reading_lost_on_interrupt_witness :
  ∃ w', main_iteration 1 pzem "./log_files/pzem_logs.csv" None
          (at_loop_entry_with (at_tick 1)) = (Ok None, w')
        ∧ rows_at w' log_path = Some [CStr <$> header]
        ∧ reads_done w' = 8%nat
        ∧ serial_open w' = false.
Proof.
  destruct (reading_lost_on_interrupt 0 pzem "./log_files/pzem_logs.csv" None
              log_path [CStr <$> header] steady_regs
              (at_loop_entry_with (at_tick 1))
              ltac:(vm_compute; reflexivity)
              ltac:(vm_compute; reflexivity)
              ltac:(intros k a; vm_compute; reflexivity)
              ltac:(vm_compute; reflexivity)
              ltac:(vm_compute; reflexivity))
    as (w' & Hrun & Hfs & Hreads & Hport).
  exists w'. split; [exact Hrun|]. split; [|split; [exact Hreads|exact Hport]].
  unfold rows_at. rewrite Hfs. vm_compute. reflexivity.
Defined.

Lemma main_loop_stopped (fuel n m : nat) (i : instrument)
    (log_filepath : string) (data_gen : option nat) (f : path)
    (rows : list row) (regs : nat → Z → Z) (w : world) :
  Os.locate (fs w) log_filepath = Some f →
  Os.lookup_node (fs w) f = Some (File rows) →
  answers w regs →
  (∀ k, (k < 2 * S n)%nat → sigint w (k + ticks w) = false) →
  sigint w (2 * S n + ticks w) = true →
  ∃ w', main_loop (S (S fuel)) (S n + S m) i log_filepath data_gen w = (Ok tt, w')
        ∧ fs w' = <[f := File (rows ++ readings regs (clock w) (reads_done w)
                                         (clock_reads w) (S n))]> (fs w)
        ∧ reads_done w' = (8 * S n + reads_done w)%nat
        ∧ stdout w' = stdout w
        ∧ serial_open w' = false.
Proof.
  intros Hloc Hnode Hans Hsig Hint.
  assert (fs w !! f = Some (File rows)) as Hf by (destruct f; [done|exact Hnode]).
  destruct (main_loop_rounds fuel (S n) (S m) i log_filepath data_gen f rows
              regs w Hloc Hnode Hans Hsig)
    as (w1 & dg & Hrun & Hfs & Hout & _ & Hreads & _ & _ & _ & Hs & Ht
        & g & -> & Hg).
  rewrite Hrun.
  assert (Os.open_append log_filepath (checkpoint w1).2
          = (Ok f, (checkpoint w1).2)) as Hopen.
  { unfold Os.open_append, checkpoint.
    destruct (sigint w1 (ticks w1)); cbn [snd fs set_ticks];
      rewrite Hfs, (locate_insert_file _ _ _ _ _ Hf), Hloc;
      (destruct f; [done|]); cbn [Os.lookup_node];
      by rewrite lookup_insert_eq. }
  rewrite (interrupt_between_cycles (S fuel) m i log_filepath g f w1 _
             ltac:(by rewrite Hs, Ht) Hg Hopen).
  eexists. split; [reflexivity|].
  unfold checkpoint. by destruct (sigint w1 (ticks w1)).
Qed.

(** ** [main], end to end *)

(** X14. A healthy run never ends by itself. With a serial port that
    can be opened, a healthy working directory ([log_files] a writable
    directory, or missing in a writable working directory), a device
    that always answers and no interrupt, [main] is still polling when
    its fuel is used up, for any fuel [n] above the number of entries of
    the file system plus one (which is what the search for a free name
    needs): [n] rounds have been made, the log [main] made holds the
    header followed by the [n] readings in order, the start-up message is
    all that has been printed, and the port is open. *)
Theorem main_steady (fuel : nat) (regs : nat → Z → Z) (w : world) :
  port_error w = None →
  healthy (fs w) →
  (S (size (fs w)) < fuel)%nat →
  answers w regs →
  (∀ k, sigint w k = false) →
  ∃ (j : nat) (w' : world),
    main fuel w = (OutOfFuel, w')
    ∧ rows_at w' ["log_files"; "pzem_logs" +:+ suffix ".csv" j]
      = Some ((CStr <$> header)
                :: readings regs (clock w) (reads_done w) (clock_reads w) fuel)
    ∧ reads_done w' = (8 * fuel + reads_done w)%nat
    ∧ stdout w' = stdout w ++ [ready]
    ∧ serial_open w' = true.
Proof.
  intros Hinit Hfolder Hfuel Hans Hsig.
  destruct fuel as [|[|fuel]]; [lia..|].
  unfold main, init, open_port, print, bind, modify, ret. rewrite Hinit.
  set (w0 := set_serial_open true w).
  destruct (log_file_default (S (S fuel)) w0 Hfolder ltac:(cbn; lia))
    as (j & w1 & Hlog & _ & Hloc & Hrows & _ & Hout).
  pose proof (log_file_transport (S (S fuel)) "pzem_logs.csv" "./" w0)
    as (Hd & Hr & Hp & Hc & Hcr & Hs & Ht & Hg).
  rewrite Hlog in *. cbn [snd] in *.
  set (w2 := set_stdout _ w1).
  destruct (main_loop_rounds fuel (S (S fuel)) 0 pzem
              ("./log_files/pzem_logs" +:+ suffix ".csv" j) None
              ["log_files"; "pzem_logs" +:+ suffix ".csv" j]
              [CStr <$> header] regs w2)
    as (w' & dg & Hrun & Hfs & Hout' & _ & Hreads & Hport & _).
  - exact Hloc.
  - unfold rows_at in Hrows. unfold w2. cbn [Os.lookup_node fs set_stdout].
    destruct (fs w1 !! _) as [[|rows]|]; try done. by injection Hrows as ->.
  - intros k a. unfold w2. cbn [device set_stdout]. rewrite Hd. apply Hans.
  - intros k _. unfold w2. cbn [sigint set_stdout]. rewrite Hs. apply Hsig.
  - rewrite Nat.add_0_r in Hrun. exists j, w'. fold pzem.
    split; [exact Hrun|].
    unfold rows_at. rewrite Hfs, lookup_insert_eq.
    unfold w2 in *.
    cbn [clock reads_done clock_reads stdout serial_open set_stdout] in *.
    rewrite Hreads, Hout', Hport, Hc, Hr, Hcr, Hp, Hout.
    repeat split; reflexivity.
Qed.

Lemma main_steady_witness :
  ∃ (j : nat) (w' : world),
    main 3 (fresh_world steady_device never) = (OutOfFuel, w')
    ∧ rows_at w' ["log_files"; "pzem_logs" +:+ suffix ".csv" j]
      = Some [CStr <$> header; sample_row; sample_row; sample_row]
    ∧ stdout w' = [ready].
Proof.
  destruct (main_steady 3 steady_regs (fresh_world steady_device never)
              eq_refl
              ltac:(left; split; vm_compute; reflexivity)
              ltac:(vm_compute; lia)
              ltac:(intros k a; vm_compute; reflexivity)
              ltac:(intros k; vm_compute; reflexivity))
    as (j & w' & Hrun & Hrows & _ & Hout & _).
  exists j, w'. split; [exact Hrun|]. split.
  - rewrite Hrows. vm_compute. reflexivity.
  - rewrite Hout. reflexivity.
Defined.

(** X15. The graceful stop works between cycles. With a serial port
    that can be opened, a healthy working directory and a device that
    answers, an interrupt that arrives at the top of a round after one
    or more completed rounds makes [main] return: the log holds the
    header and every reading taken, in order, and the port is closed.
    Fuel beyond the number of rounds (and of directory entries) is
    enough. *)
Theorem main_graceful_stop (fuel n : nat) (regs : nat → Z → Z) (w : world) :
  port_error w = None →
  healthy (fs w) →
  (S (size (fs w)) < fuel)%nat →
  (S n < fuel)%nat →
  answers w regs →
  (∀ k, (k < 2 * S n)%nat → sigint w (k + ticks w) = false) →
  sigint w (2 * S n + ticks w) = true →
  ∃ (j : nat) (w' : world),
    main fuel w = (Ok tt, w')
    ∧ rows_at w' ["log_files"; "pzem_logs" +:+ suffix ".csv" j]
      = Some ((CStr <$> header)
                :: readings regs (clock w) (reads_done w) (clock_reads w) (S n))
    ∧ reads_done w' = (8 * S n + reads_done w)%nat
    ∧ stdout w' = stdout w ++ [ready]
    ∧ serial_open w' = false.
Proof.
  intros Hinit Hfolder Hfuel Hn Hans Hsig Hint.
  unfold main, init, open_port, print, bind, modify, ret. rewrite Hinit.
  set (w0 := set_serial_open true w).
  destruct (log_file_default fuel w0 Hfolder Hfuel)
    as (j & w1 & Hlog & _ & Hloc & Hrows & _ & Hout).
  pose proof (log_file_transport fuel "pzem_logs.csv" "./" w0)
    as (Hd & Hr & Hp & Hc & Hcr & Hs & Ht & Hg).
  rewrite Hlog in *. cbn [snd] in *.
  set (w2 := set_stdout _ w1).
  destruct fuel as [|[|fuel]]; [lia..|].
  destruct (main_loop_stopped fuel n (fuel - n) pzem
              ("./log_files/pzem_logs" +:+ suffix ".csv" j) None
              ["log_files"; "pzem_logs" +:+ suffix ".csv" j]
              [CStr <$> header] regs w2)
    as (w' & Hrun & Hfs & Hreads & Hout' & Hport).
  - exact Hloc.
  - unfold rows_at in Hrows. unfold w2. cbn [Os.lookup_node fs set_stdout].
    destruct (fs w1 !! _) as [[|rows]|]; try done. by injection Hrows as ->.
  - intros k a. unfold w2. cbn [device set_stdout]. rewrite Hd. apply Hans.
  - intros k Hk. unfold w2. cbn [sigint ticks set_stdout]. rewrite Hs, Ht.
    by apply Hsig.
  - unfold w2. cbn [sigint ticks set_stdout]. by rewrite Hs, Ht.
  - replace (S n + S (fuel - n))%nat with (S (S fuel)) in Hrun by lia.
    exists j, w'. fold pzem. split; [exact Hrun|].
    unfold rows_at. rewrite Hfs, lookup_insert_eq.
    unfold w2 in *.
    cbn [clock reads_done clock_reads stdout serial_open set_stdout] in *.
    rewrite Hreads, Hout', Hport, Hc, Hr, Hcr, Hout.
    repeat split; reflexivity.
Qed.

Lemma main_graceful_stop_witness :
  ∃ (j : nat) (w' : world),
    main 4 (fresh_world steady_device (at_tick 4)) = (Ok tt, w')
    ∧ rows_at w' ["log_files"; "pzem_logs" +:+ suffix ".csv" j]
      = Some [CStr <$> header; sample_row; sample_row]
    ∧ serial_open w' = false.
Proof.
  destruct (main_graceful_stop 4 1 steady_regs
              (fresh_world steady_device (at_tick 4))
              eq_refl
              ltac:(left; split; vm_compute; reflexivity)
              ltac:(vm_compute; lia)
              ltac:(lia)
              ltac:(intros k a; vm_compute; reflexivity)
              ltac:(intros k Hk;
                    destruct k as [|[|[|[|k]]]]; [reflexivity..|lia])
              ltac:(vm_compute; reflexivity))
    as (j & w' & Hrun & Hrows & _ & _ & Hport).
  exists j, w'. split; [exact Hrun|]. split; [|exact Hport].
  rewrite Hrows. vm_compute. reflexivity.
Defined.

Section MainInvariant.

Context (fuel : nat) (i : instrument) (log_filepath : string).

Lemma main_except_ends_well (data_gen : option nat) (e : exn) (w : world) :
  ends_well (λ _, true) w (main_except fuel i log_filepath data_gen e w).
Proof.
  unfold main_except. destruct (is_KeyboardInterrupt e); [|by split].
  destruct data_gen as [g|]; [|by split].
  unfold bind.
  pose proof (write_results_growing fuel i g log_filepath w) as [Ha Hp].
  destruct (write_results fuel i g log_filepath w) as [[[]|e'|] w1];
    cbn [fst snd] in *; by split.
Qed.

Lemma handler_ends_well (data_gen : option nat) (e : exn) (w : world) :
  ∃ (r : result unit) (w1 : world),
    bind (main_except fuel i log_filepath data_gen e)
         (λ _, ret (None : option nat)) w
    = (match r with Ok _ => Ok None | Raise e' => Raise e' | OutOfFuel => OutOfFuel end,
       w1)
    ∧ ends_well (λ _, true) w (r, w1).
Proof.
  unfold bind. pose proof (main_except_ends_well data_gen e w) as H.
  destruct (main_except fuel i log_filepath data_gen e w) as [[[]|e'|] w1];
    eexists _, w1; (split; [|exact H]); reflexivity.
Qed.

Lemma main_iteration_ends_well (data_gen : option nat) (w : world) :
  ends_well (λ next : option nat, bool_decide (next = None)) w
    (main_iteration fuel i log_filepath data_gen w).
Proof.
  unfold main_iteration, bind at 1. unfold try_except at 1, bind at 1.
  unfold checkpoint at 1.
  destruct (sigint w (ticks w)).
  - destruct (handler_ends_well data_gen KeyboardInterrupt
                (set_ticks (S (ticks w)) w)) as (r & w1 & -> & Ha & Hp).
    destruct r as [[]|e'|]; cbn [fst snd] in *; by split.
  - unfold bind at 1. unfold read_pzem_data at 1. cbn [ret].
    set (w0 := set_generators _ _).
    unfold try_except, bind at 1.
    pose proof (write_results_growing fuel i (length (generators w))
                  log_filepath w0) as [Ha Hp].
    destruct (write_results fuel i _ log_filepath w0) as [[[]|e'|] w1];
      cbn [fst snd] in *.
    + by split.
    + cbv beta.
      match goal with
      | |- context [main_except _ _ _ ?dg e'] =>
          destruct (handler_ends_well dg e' w1) as (r & w2 & Heq & Ha' & Hp')
      end.
      rewrite Heq.
      split; [by etrans|]. cbn [fst snd] in *. rewrite Hp'.
      by destruct r as [[]|e''|].
    + by split.
Qed.

Lemma main_loop_ends_well (n : nat) (data_gen : option nat) (w : world) :
  ends_well (λ _, true) w (main_loop fuel n i log_filepath data_gen w).
Proof.
  revert data_gen w. induction n as [|n IH]; intros data_gen w; [by split|].
  cbn [main_loop]. unfold bind.
  pose proof (main_iteration_ends_well data_gen w) as [Ha Hp].
  destruct (main_iteration fuel i log_filepath data_gen w) as [[[g|]|e|] w1];
    cbn [fst snd] in *; try by split.
  destruct (IH (Some g) w1) as [Ha' Hp']. split; [by etrans|].
  rewrite Hp'. by destruct (main_loop _ _ _ _ _ _).1.
Qed.

End MainInvariant.

Lemma main_ends_well (fuel : nat) (w : world) :
  append_only (fs w) (fs (main fuel w).2)
  ∧ serial_open (main fuel w).2
    = match (main fuel w).1 with
      | Ok _ => false
      | _ => serial_open (init w).2
      end.
Proof.
  unfold main, init, open_port, print, bind, modify, ret.
  destruct (port_error w) as [e0|]; [by split|]. cbn [snd serial_open].
  set (w0 := set_serial_open true w).
  pose proof (log_file_growing fuel "pzem_logs.csv" "./" w0) as [Ha Hp].
  destruct (log_file fuel "pzem_logs.csv" "./" w0) as [[p|e|] w1];
    cbn [fst snd] in *; [|by split..].
  set (w2 := set_stdout _ w1).
  destruct (main_loop_ends_well fuel pzem p fuel None w2) as [Ha' Hp'].
  fold pzem. split; [by etrans|]. rewrite Hp'.
  by destruct (main_loop _ _ _ _ _ _).1.
Qed.

(** X16. [main] never loses data that is on disk: however the run
    ends, and at every point of a run still going, each entry that
    existed is still there, the directories as they were and every
    regular file with the rows it had, in order, at its start. *)
Theorem main_only_appends (fuel : nat) (w : world) (q : path)
    (rows : list row) :
  fs w !! q = Some (File rows) →
  ∃ new, fs (main fuel w).2 !! q = Some (File (rows ++ new)).
Proof.
  intros Hq. destruct (main_ends_well fuel w) as [Ha _].
  exact (Ha q (File rows) Hq).
Qed.

Lemma main_only_appends_witness :
  ∃ new, fs (main 3 after_one_run).2 !! log_path
         = Some (File ([CStr <$> header] ++ new)).
Proof.
  apply (main_only_appends 3 after_one_run log_path [CStr <$> header]).
  vm_compute. reflexivity.
Defined.

(** X17. Whenever [main] returns normally the serial port has been
    closed: the loop is left only by the [break] that follows
    [instrument.serial.close()]. *)
Theorem main_returns_with_port_closed (fuel : nat) (w : world) :
  (main fuel w).1 = Ok tt → serial_open (main fuel w).2 = false.
Proof.
  intros H. destruct (main_ends_well fuel w) as [_ ->]. by rewrite H.
Qed.

Lemma main_returns_with_port_closed_witness :
  serial_open (main 2 (fresh_world steady_device (at_tick 2))).2 = false.
Proof.
  apply (main_returns_with_port_closed 2
           (fresh_world steady_device (at_tick 2))).
  vm_compute. reflexivity.
Defined.

Lemma write_rows_no_interrupt (fuel : nat) (i : instrument) (g : nat)
    (f : path) (w : world) :
  (∀ k, sigint w k = false) →
  (write_rows fuel i g f w).1 ≠ Raise KeyboardInterrupt
  ∧ sigint (write_rows fuel i g f w).2 = sigint w.
Proof.
  revert w. induction fuel as [|fuel IH]; intros w Hsig; [done|].
  cbn [write_rows]. unfold bind.
  pose proof (gen_next_outcome i g w) as (Hres & _ & Hs & _).
  destruct (gen_next i g w) as [[[r|]|e|] w1]; cbn [fst snd] in *;
    [|done| |done].
  - unfold checkpoint. rewrite Hs, Hsig. unfold Os.writerow. cbn [fs set_ticks].
    destruct (fs w1 !! f) as [[wr|rows]|]; try done.
    match goal with
    | |- context [write_rows fuel i g f ?w0] =>
        destruct (IH w0) as [Hne Hs']; [intros k; cbn; by rewrite Hs|]
    end.
    split; [exact Hne|]. by rewrite Hs'.
  - destruct Hres as [c ->]. done.
Qed.

Lemma write_results_no_interrupt (fuel : nat) (i : instrument) (g : nat)
    (filepath : string) (w : world) :
  (∀ k, sigint w k = false) →
  (write_results fuel i g filepath w).1 ≠ Raise KeyboardInterrupt
  ∧ sigint (write_results fuel i g filepath w).2 = sigint w.
Proof.
  intros Hsig. unfold write_results, bind.
  pose proof (open_append_transport filepath w) as (_ & _ & _ & _ & _ & Hs & _).
  destruct (Os.open_append filepath w) as [[f|e|] w0] eqn:Hopen;
    cbn [snd] in Hs.
  - destruct (write_rows_no_interrupt fuel i g f w0) as [Hne Hs'].
    { intros k. by rewrite Hs. }
    split; [exact Hne|]. by rewrite Hs'.
  - split; [|done]. revert Hopen. unfold Os.open_append.
    repeat case_match; by intros [= <- _].
  - done.
Qed.

Lemma main_iteration_no_break (fuel : nat) (i : instrument)
    (log_filepath : string) (data_gen : option nat) (w : world) :
  (∀ k, sigint w k = false) →
  (main_iteration fuel i log_filepath data_gen w).1 ≠ Ok None
  ∧ sigint (main_iteration fuel i log_filepath data_gen w).2 = sigint w.
Proof.
  intros Hsig.
  unfold main_iteration, try_except, bind, checkpoint. rewrite Hsig.
  unfold read_pzem_data, ret.
  match goal with
  | |- context [write_results fuel i ?g log_filepath ?w0] =>
      destruct (write_results_no_interrupt fuel i g log_filepath w0 Hsig)
        as [Hne Hs];
      destruct (write_results fuel i g log_filepath w0) as [[[]|e|] w1]
  end; cbn [fst snd] in *; try done.
  unfold main_except, raise. by destruct e.
Qed.

Lemma main_loop_no_break (fuel n : nat) (i : instrument)
    (log_filepath : string) (data_gen : option nat) (w : world) :
  (∀ k, sigint w k = false) →
  (main_loop fuel n i log_filepath data_gen w).1 ≠ Ok tt.
Proof.
  revert data_gen w. induction n as [|n IH]; intros data_gen w Hsig; [done|].
  cbn [main_loop]. unfold bind.
  destruct (main_iteration_no_break fuel i log_filepath data_gen w Hsig)
    as [Hne Hs].
  destruct (main_iteration fuel i log_filepath data_gen w) as [[[g|]|e|] w1];
    cbn [fst snd] in *; try done.
  apply IH. intros k. by rewrite Hs.
Qed.

(** X18. Only an operator interrupt makes [main] return. If no
    interrupt is ever delivered outside the register reads, then whatever
    the device, the serial adapter and the file system do, [main] does
    not return normally and [instrument.serial.close()] is never
    reached, the port being left as [init] left it: the run goes on or
    dies with an uncaught exception. (An interrupt inside a register read
    does not help: the generator turns it into [UnboundLocalError].) *)
Theorem main_needs_interrupt (fuel : nat) (w : world) :
  (∀ k, sigint w k = false) →
  (main fuel w).1 ≠ Ok tt
  ∧ serial_open (main fuel w).2 = serial_open (init w).2.
Proof.
  intros Hsig.
  assert ((main fuel w).1 ≠ Ok tt) as Hne.
  { unfold main, init, open_port, print, bind, modify, ret.
    destruct (port_error w) as [e0|]; [done|].
    set (w0 := set_serial_open true w).
    pose proof (log_file_transport fuel "pzem_logs.csv" "./" w0)
      as (_ & _ & _ & _ & _ & Hs & _).
    destruct (log_file fuel "pzem_logs.csv" "./" w0) as [[p|e|] w1];
      cbn [fst snd] in *; [|done..].
    apply main_loop_no_break. intros k. cbn [sigint set_stdout].
    rewrite Hs. apply Hsig. }
  split; [exact Hne|].
  destruct (main_ends_well fuel w) as [_ ->].
  by destruct (main fuel w).1 as [[]|e|].
Qed.

Lemma main_needs_interrupt_witness :
  (main 5 (fresh_world (failing_at 9 KeyboardInterrupt) never)).1 ≠ Ok tt
  ∧ serial_open (main 5 (fresh_world (failing_at 9 KeyboardInterrupt) never)).2
    = serial_open (init (fresh_world (failing_at 9 KeyboardInterrupt) never)).2.
Proof.
  apply (main_needs_interrupt 5
           (fresh_world (failing_at 9 KeyboardInterrupt) never)).
  intros k. reflexivity.
Defined.
